(** * state-bridge: delta publication and stateful reconciliation of map-arrays

    A shallow embedding of [createMapArrayRemoteSubscribable] (the host-side
    Delta Publisher) and [makeStatefulListSubscribable] (the remote-side
    Stateful Reconciler), together with the synchronous observable source
    [createSyncSubscribable] that the repository's tests drive them with.

    Modelling conventions.
    - A [MapArray<T>] (a JS array of [[key, value]] pairs) is a list of pairs;
      keys are strings compared with [===].
    - The [version] counters are JS numbers that only ever hold small
      integers; they are integers here (exact below 2^53).
    - Function references (subscriber callbacks, listener closures) are
      identified by a number; [retain]/[release] and callback invocations
      are recorded in an event trace, in program order.
    - Host and remote are isolated contexts: a collection that crosses the
      boundary is a copy, so the Reconciler's [push] acts on its own replica.
      When both run in one process instead, [getCurrent] hands over the
      host's array itself and a [push] also shows in it; what a single
      update leaves in the replica does not depend on this, since a delta is
      computed before it is delivered and the [filter] yields a new array.
    - An [await] inside one listener invocation is atomic: no other
      invocation is interleaved between the fetch and its continuation. *)

From Stdlib Require Import List String ZArith Bool Lia Sorted.
Import ListNotations.

Local Open Scope Z_scope.

(** ** Data model *)

Definition Key : Type := string.

(** [type MapArray<Value, Key = string> = [Key, Value][]] *)
Definition MapArray (T : Type) : Type := list (Key * T).

Definition keys {T : Type} (m : MapArray T) : list Key := map fst m.

(** [interface Delta<T> { added: MapArray<T>; removed: string[] }] *)
Record Delta (T : Type) : Type := mkDelta {
  added : MapArray T;
  removed : list Key
}.
Arguments mkDelta {T} _ _.
Arguments added {T} _.
Arguments removed {T} _.

(** Identity of a callback handed to a [subscribe], and of a listener
    closure registered on the observable source. *)
Definition SubscriberId : Type := nat.
Definition Handle : Type := nat.

(** What [retain]/[release] can be applied to. *)
Inductive Ref : Type :=
| Callback (s : SubscriberId)
| PublisherObject.

(** Externally visible effects, in program order. *)
Inductive Event (T : Type) : Type :=
| Retain (r : Ref)
| Release (r : Ref)
| SourceSubscribe (h : Handle)
| SourceUnsubscribe (h : Handle)
| Emit (s : SubscriberId) (d : Delta T) (v : Z)
| Notify (s : SubscriberId) (value : MapArray T).
Arguments Retain {T} _.
Arguments Release {T} _.
Arguments SourceSubscribe {T} _.
Arguments SourceUnsubscribe {T} _.
Arguments Emit {T} _ _ _.
Arguments Notify {T} _ _.

(** [arr.some(([key]) => key === k)] *)
Definition some_key {T : Type} (k : Key) (m : MapArray T) : bool :=
  existsb (fun e => String.eqb (fst e) k) m.

(** [arr.includes(k)] on an array of keys *)
Definition includes (l : list Key) (k : Key) : bool :=
  existsb (fun x => String.eqb x k) l.

(** ** The synchronous observable source ([createSyncSubscribable]) *)

Module Source.

Record SyncSubscribable (T : Type) : Type := mk {
  current : MapArray T;
  (* the [Set] of listener closures, in insertion order; each closure is
     paired with the subscriber callback it closes over *)
  subscribers : list (Handle * SubscriberId);
  (* number of closures created so far: the next fresh identity *)
  allocated : Handle
}.
Arguments mk {T} _ _ _.
Arguments current {T} _.
Arguments subscribers {T} _.
Arguments allocated {T} _.

Section Ops.
Context {T : Type}.

Definition createSyncSubscribable (initial : MapArray T) : SyncSubscribable T :=
  mk initial [] 0%nat.

(** [subscribe(subscriber) { subscribers.add(subscriber); return () => subscribers.delete(subscriber) }]
    called with a freshly created closure: it is never already a member. *)
Definition subscribe (s : SubscriberId) (src : SyncSubscribable T)
  : SyncSubscribable T * Handle :=
  (mk (current src) (subscribers src ++ [(allocated src, s)]) (S (allocated src)),
   allocated src).

(** the returned [() => subscribers.delete(subscriber)] *)
Definition unsubscribe (h : Handle) (src : SyncSubscribable T) : SyncSubscribable T :=
  mk (current src)
     (filter (fun hs => negb (Nat.eqb (fst hs) h)) (subscribers src))
     (allocated src).

(** the assignment [current = value] of [update] *)
Definition assign (value : MapArray T) (src : SyncSubscribable T) : SyncSubscribable T :=
  mk value (subscribers src) (allocated src).

End Ops.

End Source.

(** ** The Delta Publisher ([createMapArrayRemoteSubscribable]) *)

Module Publisher.

(** The closure state of one Publisher: the captured source object and the
    three local bindings [initial], [current] and [version]. *)
Record t (T : Type) : Type := mk {
  subscription : Source.SyncSubscribable T;
  initial : MapArray T;
  current : MapArray T;
  version : Z
}.
Arguments mk {T} _ _ _ _.
Arguments subscription {T} _.
Arguments initial {T} _.
Arguments current {T} _.
Arguments version {T} _.

Section Ops.
Context {T : Type}.

(** [const initial = subscription.current; const current = initial; let version = 1;] *)
Definition createMapArrayRemoteSubscribable (subscription : Source.SyncSubscribable T) : t T :=
  let initial := Source.current subscription in
  let current := initial in
  mk subscription initial current 1.

(** The object literal built inside the source listener:
    [added] filters [next] by absence from [current], [removed] filters
    [current] by absence from [next] and keeps the keys. *)
Definition computeDelta (current next : MapArray T) : Delta T :=
  {| added := filter (fun e => negb (some_key (fst e) current)) next;
     removed := map fst (filter (fun e => negb (some_key (fst e) next)) current) |}.

(** [async getCurrent() { return { value: subscription.current, version } }] *)
Definition getCurrent (p : t T) : MapArray T * Z :=
  (Source.current (subscription p), version p).

Section Callbacks.
(** The world [W] the subscriber callbacks act on, and the callbacks
    themselves: [callbacks s delta version p w] is the call
    [subscriber(delta, { version })] of callback [s]; it may read the
    Publisher (through [getCurrent]) but does not re-enter it. *)
Context {W : Type}.
Variable callbacks : SubscriberId -> Delta T -> Z -> t T -> W -> W.

(** The closure [(next = subscription.current) => { version++; ...; subscriber(delta, { version }) }] *)
Definition listener (s : SubscriberId) (next : option (MapArray T))
           (pw : t T * W) : t T * W :=
  let (p, w) := pw in
  let next := match next with
              | Some n => n
              | None => Source.current (subscription p)
              end in
  let p' := mk (subscription p) (initial p) (current p) (version p + 1) in
  let delta := computeDelta (current p') next in
  (p', callbacks s delta (version p') p' w).

(** [update(value) { current = value; for (const subscriber of subscribers) subscriber(value) }]
    of the source, whose registered closures are the Publisher's listeners. *)
Definition update (value : MapArray T) (pw : t T * W) : t T * W :=
  let (p, w) := pw in
  let p1 := mk (Source.assign value (subscription p)) (initial p) (current p) (version p) in
  fold_left (fun acc hs => listener (snd hs) (Some value) acc)
            (Source.subscribers (subscription p1)) (p1, w).
End Callbacks.

(** [subscribe(subscriber)]: [retain(subscriber)], register the listener
    closure on the source, return [[teardown, { version }]]; the teardown
    is identified by the handle of the closure it removes. *)
Definition subscribe (s : SubscriberId) (p : t T) : t T * (Handle * Z) * list (Event T) :=
  let (src', h) := Source.subscribe s (subscription p) in
  (mk src' (initial p) (current p) (version p),
   (h, version p),
   [Retain (Callback s); SourceSubscribe h]).

(** [const teardown = () => { unsubscribe(); release(subscriber); }] *)
Definition teardown (h : Handle) (s : SubscriberId) (p : t T) : t T * list (Event T) :=
  (mk (Source.unsubscribe h (subscription p)) (initial p) (current p) (version p),
   [SourceUnsubscribe h; Release (Callback s)]).

(** Subscribers that only record what they are called with. *)
Definition record (s : SubscriberId) (d : Delta T) (v : Z) (_ : t T)
           (log : list (Event T)) : list (Event T) :=
  log ++ [Emit s d v].

Definition traceUpdate (value : MapArray T) (p : t T) : t T * list (Event T) :=
  update record value (p, []).

End Ops.

End Publisher.

(** ** The Stateful Reconciler ([makeStatefulListSubscribable]) *)

Module Reconciler.

(** The closure state of one Reconciler: [current], [listening],
    [version] and the [Set] of subscriber callbacks (insertion order). *)
Record t (T : Type) : Type := mk {
  current : MapArray T;
  version : Z;
  listening : bool;
  subscribers : list SubscriberId
}.
Arguments mk {T} _ _ _ _.
Arguments current {T} _.
Arguments version {T} _.
Arguments listening {T} _.
Arguments subscribers {T} _.

(** The first argument of the internal listener, [Delta<T> | MapArray<T>],
    told apart by ["added" in value]. *)
Inductive Payload (T : Type) : Type :=
| ADelta (d : Delta T)
| ACollection (m : MapArray T).
Arguments ADelta {T} _.
Arguments ACollection {T} _.

(** [Set.prototype.add] and [Set.prototype.delete] on callback identities *)
Definition setAdd (s : SubscriberId) (l : list SubscriberId) : list SubscriberId :=
  if existsb (Nat.eqb s) l then l else l ++ [s].

Definition setDelete (s : SubscriberId) (l : list SubscriberId) : list SubscriberId :=
  filter (fun x => negb (Nat.eqb x s)) l.

Section Ops.
Context {T : Type}.

(** [subscribe(subscriber) { subscribers.add(subscriber); return () => { subscribers.delete(subscriber) } }] *)
Definition subscribe (s : SubscriberId) (r : t T) : t T :=
  mk (current r) (version r) (listening r) (setAdd s (subscribers r)).

(** the function returned by [subscribe(s)] *)
Definition unsubscribe (s : SubscriberId) (r : t T) : t T :=
  mk (current r) (version r) (listening r) (setDelete s (subscribers r)).

(** [value.added.forEach(([key, value]) => { current.push([key, value]) })] *)
Definition pushAll (added current : MapArray T) : MapArray T :=
  fold_left (fun cur e => cur ++ [(fst e, snd e)]) added current.

(** The body of [if ("added" in value) { ... } else { current = value }] *)
Definition applyPayload (value : Payload T) (current : MapArray T) : MapArray T :=
  match value with
  | ADelta d =>
      filter (fun e => negb (includes (removed d) (fst e))) (pushAll (added d) current)
  | ACollection m => m
  end.

(** [async function listener(value, options, subscription?)] up to its
    [await]: [version++], then, on a version gap, the call
    [subscription.getCurrent()].  The third argument is the Publisher as
    it stands when that call is served. *)
Definition listenerEnter (options_version : Z)
           (subscription : option (Publisher.t T)) (r : t T)
  : t T * option (MapArray T * Z) :=
  let r1 := mk (current r) (version r + 1) (listening r) (subscribers r) in
  let nextVersion := options_version in
  match subscription with
  | Some p =>
      if negb (nextVersion =? version r1) then (r1, Some (Publisher.getCurrent p))
      else (r1, None)
  | None => (r1, None)
  end.

(** The rest of [listener]: the two assignments from the fetched result
    when there was a gap, the [listening] test, the payload, the
    [for (const subscriber of subscribers) subscriber(current)] loop. *)
Definition listenerResume (value : Payload T) (fetched : option (MapArray T * Z))
           (r : t T) : t T * list (Event T) :=
  let r1 :=
    match fetched with
    | Some result => mk (fst result) (snd result) (listening r) (subscribers r)
    | None => r
    end in
  if negb (listening r1) then (r1, [])
  else
    let current' := applyPayload value (current r1) in
    (mk current' (version r1) (listening r1) (subscribers r1),
     map (fun s => Notify s current') (subscribers r1)).

(** One whole invocation, nothing interleaved at the [await]. *)
Definition listener (value : Payload T) (options_version : Z)
           (subscription : option (Publisher.t T)) (r : t T)
  : t T * list (Event T) :=
  let (r1, fetched) := listenerEnter options_version subscription r in
  listenerResume value fetched r1.

(** [makeStatefulListSubscribable(subscription)]; [self] is the identity
    of the arrow function handed to [subscription.subscribe]. *)
Definition makeStatefulListSubscribable (self : SubscriberId) (p : Publisher.t T)
  : Publisher.t T * t T * Handle * list (Event T) :=
  let r0 := mk (Publisher.initial p) 1 true [] in
  let latest := Publisher.getCurrent p in
  let r1 := mk (fst latest) (snd latest) (listening r0) [] in
  let '(p', (h, _), evs) := Publisher.subscribe self p in
  (p', r1, h, Retain PublisherObject :: evs).

(** [async destroy()] up to [await subscriptionResult]:
    [listening = false; subscribers.clear()]. *)
Definition destroyEnter (r : t T) : t T :=
  mk (current r) (version r) false [].

(** The rest of [destroy]: [unsubscribe(); release(subscription)], where
    [unsubscribe] is the teardown obtained from [subscriptionResult]. *)
Definition destroyResume (self : SubscriberId) (h : Handle) (p : Publisher.t T)
  : Publisher.t T * list (Event T) :=
  let (p', evs) := Publisher.teardown h self p in
  (p', evs ++ [Release PublisherObject]).

Definition destroy (self : SubscriberId) (h : Handle) (pr : Publisher.t T * t T)
  : Publisher.t T * t T * list (Event T) :=
  let (p, r) := pr in
  let r' := destroyEnter r in
  let (p', evs) := destroyResume self h p in
  (p', r', evs).

End Ops.

End Reconciler.

(** ** A Publisher with one Reconciler attached *)

Module Bridge.

Record t (T : Type) : Type := mk {
  host : Publisher.t T;
  remote : Reconciler.t T;
  link : Handle;
  trace : list (Event T)
}.
Arguments mk {T} _ _ _ _.
Arguments host {T} _.
Arguments remote {T} _.
Arguments link {T} _.
Arguments trace {T} _.

(** The identity of the Reconciler's listener closure. *)
Definition self : SubscriberId := 0%nat.

Section Ops.
Context {T : Type}.

(** What the Publisher's subscribers do with a publication: the
    Reconciler's closure [(delta, options) => listener(delta, options, subscription)]
    runs the internal listener; any other subscriber records the call. *)
Definition callbacks (s : SubscriberId) (d : Delta T) (v : Z) (p : Publisher.t T)
           (w : Reconciler.t T * list (Event T)) : Reconciler.t T * list (Event T) :=
  if Nat.eqb s self then
    let (r', evs) := Reconciler.listener (Reconciler.ADelta d) v (Some p) (fst w) in
    (r', snd w ++ evs)
  else (fst w, snd w ++ [Emit s d v]).

Definition connect (initial : MapArray T) : t T :=
  let p0 := Publisher.createMapArrayRemoteSubscribable
              (Source.createSyncSubscribable initial) in
  let '(p, r, h, evs) := Reconciler.makeStatefulListSubscribable self p0 in
  mk p r h evs.

(** One host mutation, every publication delivered as it is emitted. *)
Definition hostUpdate (value : MapArray T) (sys : t T) : t T :=
  let '(p, (r, evs)) :=
    Publisher.update callbacks value (host sys, (remote sys, trace sys)) in
  mk p r (link sys) evs.

Definition run (updates : list (MapArray T)) (sys : t T) : t T :=
  fold_left (fun s value => hostUpdate value s) updates sys.

(** The host's live collection. *)
Definition live (sys : t T) : MapArray T :=
  Source.current (Publisher.subscription (host sys)).

(** Every key kept by the step from [before] to [after] keeps its entries. *)
Definition retainedUnchanged (before after : MapArray T) : Prop :=
  forall (k : Key) (v : T),
    In k (keys before) -> In k (keys after) ->
    (In (k, v) before <-> In (k, v) after).

(** Replica and live collection hold the same (key, value) pairs. *)
Definition inSync (sys : t T) : Prop :=
  forall e, In e (Reconciler.current (remote sys)) <-> In e (live sys).

End Ops.

End Bridge.

(** ** Histories of a Publisher *)

Module History.

Inductive Op (T : Type) : Type :=
| Change (value : MapArray T)
| Subscribe (s : SubscriberId)
| Teardown (h : Handle) (s : SubscriberId).
Arguments Change {T} _.
Arguments Subscribe {T} _.
Arguments Teardown {T} _ _.

Section Ops.
Context {T : Type}.

Definition step (pl : Publisher.t T * list (Event T)) (op : Op T)
  : Publisher.t T * list (Event T) :=
  let (p, log) := pl in
  match op with
  | Change value => Publisher.update Publisher.record value (p, log)
  | Subscribe s =>
      let '(p', _, evs) := Publisher.subscribe s p in (p', log ++ evs)
  | Teardown h s =>
      let (p', evs) := Publisher.teardown h s p in (p', log ++ evs)
  end.

Definition run (ops : list (Op T)) (p : Publisher.t T) : Publisher.t T * list (Event T) :=
  fold_left step ops (p, []).

(** The generation of the live collection: how many changes the source
    has gone through. *)
Fixpoint generation (ops : list (Op T)) : nat :=
  match ops with
  | [] => 0
  | Change _ :: rest => S (generation rest)
  | _ :: rest => generation rest
  end.

(** Versions number the change stream from 1: version [v] stands for the
    collection after [v - 1] changes. *)
Definition denotedGeneration (v : Z) : Z := v - 1.

(** The versions a given subscriber was called with, in order. *)
Fixpoint versionsDeliveredTo (s : SubscriberId) (log : list (Event T)) : list Z :=
  match log with
  | [] => []
  | Emit s' _ v :: rest =>
      if Nat.eqb s' s then v :: versionsDeliveredTo s rest
      else versionsDeliveredTo s rest
  | _ :: rest => versionsDeliveredTo s rest
  end.

(** The deltas a given subscriber was called with, in order. *)
Fixpoint deltasDeliveredTo (s : SubscriberId) (log : list (Event T)) : list (Delta T) :=
  match log with
  | [] => []
  | Emit s' d _ :: rest =>
      if Nat.eqb s' s then d :: deltasDeliveredTo s rest
      else deltasDeliveredTo s rest
  | _ :: rest => deltasDeliveredTo s rest
  end.

(** The publications of one change: one per registered listener, each
    carrying the same delta and the next value of the shared counter. *)
Fixpoint emissions (l : list (Handle * SubscriberId)) (d : Delta T) (v : Z)
  : list (Event T) :=
  match l with
  | [] => []
  | hs :: rest => Emit (snd hs) d (v + 1) :: emissions rest d (v + 1)
  end.

(** Every change of the history finds at least one listener registered. *)
Fixpoint changesPublished (ops : list (Op T)) (p : Publisher.t T) : bool :=
  match ops with
  | [] => true
  | op :: rest =>
      match op with
      | Change _ =>
          negb (Nat.eqb (List.length (Source.subscribers (Publisher.subscription p))) 0)
      | _ => true
      end
      && changesPublished rest (fst (step (p, []) op))
  end.

End Ops.

End History.

(** ** Observations on traces and histories *)

Module Observe.

Section Ops.
Context {T : Type}.

(** The versions of all publications of a trace, whoever received them. *)
Fixpoint versionsEmitted (log : list (Event T)) : list Z :=
  match log with
  | [] => []
  | Emit _ _ v :: rest => v :: versionsEmitted rest
  | _ :: rest => versionsEmitted rest
  end.

(** [v + 1; v + 2; ...; v + n] *)
Fixpoint countUp (v : Z) (n : nat) : list Z :=
  match n with
  | O => []
  | S n' => (v + 1) :: countUp (v + 1) n'
  end.

(** The callbacks a trace invoked with a full collection, in order. *)
Fixpoint notified (log : list (Event T)) : list SubscriberId :=
  match log with
  | [] => []
  | Notify s _ :: rest => s :: notified rest
  | _ :: rest => notified rest
  end.

(** The value assigned by the last [Change] of a history, [start] if none. *)
Fixpoint lastChange (ops : list (History.Op T)) (start : MapArray T) : MapArray T :=
  match ops with
  | [] => start
  | History.Change value :: rest => lastChange rest value
  | _ :: rest => lastChange rest start
  end.

(** Every closure in the source's listener set was registered through
    [subscribe], which numbers closures in creation order. *)
Definition handlesFresh (src : Source.SyncSubscribable T) : Prop :=
  Forall (fun hs => (fst hs < Source.allocated src)%nat) (Source.subscribers src).

End Ops.

End Observe.

(** ** Lifecycles of a Reconciler *)

Module Remote.

(** What can happen to a Reconciler: its [subscribe], a function returned
    by [subscribe], an invocation of the internal listener, and the part of
    [destroy] that acts on the Reconciler itself. *)
Inductive Op (T : Type) : Type :=
| Subscribe (s : SubscriberId)
| Unsubscribe (s : SubscriberId)
| Deliver (value : Reconciler.Payload T) (version : Z)
          (subscription : option (Publisher.t T))
| Destroy.
Arguments Subscribe {T} _.
Arguments Unsubscribe {T} _.
Arguments Deliver {T} _ _ _.
Arguments Destroy {T}.

Section Ops.
Context {T : Type}.

Definition step (rl : Reconciler.t T * list (Event T)) (op : Op T)
  : Reconciler.t T * list (Event T) :=
  let (r, log) := rl in
  match op with
  | Subscribe s => (Reconciler.subscribe s r, log)
  | Unsubscribe s => (Reconciler.unsubscribe s r, log)
  | Deliver value version subscription =>
      let (r', evs) := Reconciler.listener value version subscription r in
      (r', log ++ evs)
  | Destroy => (Reconciler.destroyEnter r, log)
  end.

Definition run (ops : list (Op T)) (r : Reconciler.t T) : Reconciler.t T * list (Event T) :=
  fold_left step ops (r, []).

End Ops.

End Remote.

(** ** An attached pair with application subscribers *)

Module Session.

Section Ops.
Context {T : Type}.

(** [statefulSubscription.subscribe(s)] on the Reconciler of the pair. *)
Definition subscribe (s : SubscriberId) (sys : Bridge.t T) : Bridge.t T :=
  Bridge.mk (Bridge.host sys) (Reconciler.subscribe s (Bridge.remote sys))
            (Bridge.link sys) (Bridge.trace sys).

(** The Reconciler's closure is the only listener of the source, both
    counters agree and the Reconciler is listening. *)
Definition attached (sys : Bridge.t T) : Prop :=
  Source.subscribers (Publisher.subscription (Bridge.host sys))
  = [(Bridge.link sys, Bridge.self)]
  /\ Reconciler.version (Bridge.remote sys) = Publisher.version (Bridge.host sys)
  /\ Reconciler.listening (Bridge.remote sys) = true.

(** The Reconciler's closure is registered on the source, once; other
    subscribers of the Publisher may be registered before and after it. *)
Definition subscribedOnce (sys : Bridge.t T) : Prop :=
  exists (before after : list (Handle * SubscriberId)) (h : Handle),
    Source.subscribers (Publisher.subscription (Bridge.host sys))
    = before ++ (h, Bridge.self) :: after
    /\ Forall (fun hs => snd hs <> Bridge.self) before
    /\ Forall (fun hs => snd hs <> Bridge.self) after.


End Ops.

End Session.

(** * Properties *)

(** ** Membership facts for the array primitives *)

Section ArrayFacts.
Context {T : Type}.

Lemma some_key_In (k : Key) (m : MapArray T) :
  some_key k m = true <-> In k (keys m).
Proof.
  unfold some_key, keys. rewrite existsb_exists, in_map_iff.
  split; intros [e [H1 H2]]; exists e.
  - apply String.eqb_eq in H2. tauto.
  - split; [tauto | now apply String.eqb_eq].
Qed.

Lemma absent_key_In (k : Key) (m : MapArray T) :
  negb (some_key k m) = true <-> ~ In k (keys m).
Proof.
  rewrite negb_true_iff, <- not_true_iff_false, some_key_In. tauto.
Qed.

Lemma includes_In (l : list Key) (k : Key) : includes l k = true <-> In k l.
Proof.
  unfold includes. rewrite existsb_exists. split.
  - intros [x [Hx Heq]]. apply String.eqb_eq in Heq. now subst.
  - intros H. exists k. split; [assumption | apply String.eqb_refl].
Qed.

Lemma excluded_In (l : list Key) (k : Key) : negb (includes l k) = true <-> ~ In k l.
Proof.
  rewrite negb_true_iff, <- not_true_iff_false, includes_In. tauto.
Qed.

Lemma key_of_entry (k : Key) (v : T) (m : MapArray T) : In (k, v) m -> In k (keys m).
Proof. intros H. unfold keys. change k with (fst (k, v)). now apply in_map. Qed.

Lemma key_In_dec (k : Key) (m : MapArray T) : {In k (keys m)} + {~ In k (keys m)}.
Proof. apply in_dec, string_dec. Qed.

Lemma computeDelta_added (c n : MapArray T) (k : Key) (v : T) :
  In (k, v) (added (Publisher.computeDelta c n)) <-> In (k, v) n /\ ~ In k (keys c).
Proof. simpl. rewrite filter_In, absent_key_In. reflexivity. Qed.

Lemma computeDelta_removed (c n : MapArray T) (k : Key) :
  In k (removed (Publisher.computeDelta c n)) <-> In k (keys c) /\ ~ In k (keys n).
Proof.
  simpl. rewrite in_map_iff. split.
  - intros [[k' v] [Hk Hin]]. simpl in Hk. subst k'.
    apply filter_In in Hin. destruct Hin as [Hin Habs].
    apply absent_key_In in Habs. split; [eapply key_of_entry; eauto | assumption].
  - intros [Hin Habs]. unfold keys in Hin. apply in_map_iff in Hin.
    destruct Hin as [e [Hk Hin]]. exists e. split; [assumption |].
    apply filter_In. split; [assumption |]. apply absent_key_In. now rewrite Hk.
Qed.

Lemma pushAll_app (extra cur : MapArray T) : Reconciler.pushAll extra cur = cur ++ extra.
Proof.
  unfold Reconciler.pushAll. revert cur.
  induction extra as [| [k v] extra IH]; intros cur; simpl.
  - now rewrite app_nil_r.
  - rewrite IH, <- app_assoc. reflexivity.
Qed.

Lemma applyPayload_delta (d : Delta T) (cur : MapArray T) :
  Reconciler.applyPayload (Reconciler.ADelta d) cur
  = filter (fun e => negb (includes (removed d) (fst e))) (cur ++ added d).
Proof. simpl. now rewrite pushAll_app. Qed.

Lemma applyPayload_delta_In (d : Delta T) (cur : MapArray T) (k : Key) (v : T) :
  In (k, v) (Reconciler.applyPayload (Reconciler.ADelta d) cur)
  <-> (In (k, v) cur \/ In (k, v) (added d)) /\ ~ In k (removed d).
Proof.
  rewrite applyPayload_delta, filter_In, in_app_iff, excluded_In. reflexivity.
Qed.

End ArrayFacts.

(** ** The Publisher's source listeners *)

Section PublisherFacts.
Context {T : Type}.

Lemma listeners_fold (value : MapArray T) (l : list (Handle * SubscriberId)) :
  forall (p : Publisher.t T) (log : list (Event T)),
    fold_left (fun acc hs => Publisher.listener Publisher.record (snd hs) (Some value) acc)
              l (p, log)
    = (Publisher.mk (Publisher.subscription p) (Publisher.initial p)
                    (Publisher.current p)
                    (Publisher.version p + Z.of_nat (List.length l)),
       log ++ History.emissions l (Publisher.computeDelta (Publisher.current p) value)
                        (Publisher.version p)).
Proof.
  induction l as [| hs rest IH]; intros p log.
  - simpl. rewrite Z.add_0_r, app_nil_r. now destruct p.
  - cbn [fold_left List.length History.emissions]. unfold Publisher.listener at 2.
    rewrite IH. cbn [Publisher.subscription Publisher.initial Publisher.current
                      Publisher.version].
    unfold Publisher.record. rewrite <- app_assoc. cbn [app].
    f_equal. f_equal. lia.
Qed.

(** A change leaves [initial] and the comparison baseline [current]
    untouched, stores the new value in the source, advances the counter
    once per registered listener and publishes the delta between the
    baseline and the new value. *)
Lemma update_record (value : MapArray T) (p : Publisher.t T) (log : list (Event T)) :
  Publisher.update Publisher.record value (p, log)
  = (Publisher.mk (Source.assign value (Publisher.subscription p))
                  (Publisher.initial p) (Publisher.current p)
                  (Publisher.version p
                   + Z.of_nat (List.length (Source.subscribers (Publisher.subscription p)))),
     log ++ History.emissions (Source.subscribers (Publisher.subscription p))
                      (Publisher.computeDelta (Publisher.current p) value)
                      (Publisher.version p)).
Proof. unfold Publisher.update. rewrite listeners_fold. reflexivity. Qed.

Lemma emissions_In (l : list (Handle * SubscriberId)) (d d' : Delta T)
      (v v' : Z) (s : SubscriberId) :
  In (Emit s d' v') (History.emissions l d v) -> d' = d /\ v < v'.
Proof.
  revert v. induction l as [| hs rest IH]; intros v; simpl; [tauto |].
  intros [Heq | Hin].
  - inversion Heq. split; [reflexivity | lia].
  - apply IH in Hin. split; [tauto | lia].
Qed.

(** One change advances the counter once per registered listener. *)
Lemma change_advances_version_per_listener (value : MapArray T) (p : Publisher.t T) :
  Publisher.version (fst (Publisher.traceUpdate value p))
  = Publisher.version p
    + Z.of_nat (List.length (Source.subscribers (Publisher.subscription p))).
Proof. unfold Publisher.traceUpdate. now rewrite update_record. Qed.

(** With a single registered listener a change advances the counter by one. *)
Lemma single_subscriber_step (value : MapArray T) (p : Publisher.t T) (hs : Handle * SubscriberId) :
  Source.subscribers (Publisher.subscription p) = [hs] ->
  Publisher.traceUpdate value p
  = (Publisher.mk (Source.assign value (Publisher.subscription p))
                  (Publisher.initial p) (Publisher.current p) (Publisher.version p + 1),
     [Emit (snd hs) (Publisher.computeDelta (Publisher.current p) value)
           (Publisher.version p + 1)]).
Proof.
  intros H. unfold Publisher.traceUpdate. rewrite update_record, H. reflexivity.
Qed.

End PublisherFacts.

(** ** Histories: what stays fixed and how the counter moves *)

Section HistoryFacts.
Context {T : Type}.

Lemma step_state (p : Publisher.t T) (log : list (Event T)) (op : History.Op T) :
  fst (History.step (p, log) op) = fst (History.step (p, []) op).
Proof.
  destruct op as [value | s | h s]; unfold History.step.
  - now rewrite !update_record.
  - reflexivity.
  - reflexivity.
Qed.

(** No operation ever reassigns the comparison baseline. *)
Lemma step_baseline (pl : Publisher.t T * list (Event T)) (op : History.Op T) :
  Publisher.current (fst (History.step pl op)) = Publisher.current (fst pl)
  /\ Publisher.initial (fst (History.step pl op)) = Publisher.initial (fst pl).
Proof.
  destruct pl as [p log]. destruct op as [value | s | h s]; unfold History.step.
  - rewrite update_record. simpl. tauto.
  - simpl. tauto.
  - simpl. tauto.
Qed.

Lemma run_baseline (ops : list (History.Op T)) :
  forall pl : Publisher.t T * list (Event T),
    Publisher.current (fst (fold_left History.step ops pl)) = Publisher.current (fst pl)
    /\ Publisher.initial (fst (fold_left History.step ops pl)) = Publisher.initial (fst pl).
Proof.
  induction ops as [| op rest IH]; intros pl; simpl; [tauto |].
  destruct (IH (History.step pl op)) as [Hc Hi].
  destruct (step_baseline pl op) as [Hc' Hi'].
  split; congruence.
Qed.

Lemma step_version (p : Publisher.t T) (log : list (Event T)) (op : History.Op T) :
  Publisher.version (fst (History.step (p, log) op))
  = match op with
    | History.Change _ =>
        Publisher.version p
        + Z.of_nat (List.length (Source.subscribers (Publisher.subscription p)))
    | _ => Publisher.version p
    end.
Proof.
  destruct op as [value | s | h s]; unfold History.step.
  - now rewrite update_record.
  - reflexivity.
  - reflexivity.
Qed.

(** When every change is published at least once, the counter has moved
    at least as far as the collection has. *)
Lemma published_changes_bound (ops : list (History.Op T)) :
  forall (p : Publisher.t T) (log : list (Event T)),
    History.changesPublished ops p = true ->
    Z.of_nat (History.generation ops)
    <= Publisher.version (fst (fold_left History.step ops (p, log))) - Publisher.version p.
Proof.
  induction ops as [| op rest IH]; intros p log Hpub.
  - simpl. lia.
  - cbn [History.changesPublished] in Hpub. apply andb_true_iff in Hpub.
    destruct Hpub as [Hop Hrest].
    cbn [fold_left].
    destruct (History.step (p, log) op) as [p' log'] eqn:Hstep.
    assert (Hp' : p' = fst (History.step (p, []) op)).
    { rewrite <- step_state with (log := log). now rewrite Hstep. }
    assert (Hv : Publisher.version p' = Publisher.version (fst (History.step (p, log) op))).
    { now rewrite Hstep. }
    rewrite step_version in Hv.
    rewrite <- Hp' in Hrest. specialize (IH p' log' Hrest).
    destruct op as [value | s | h s]; cbn [History.generation].
    + apply negb_true_iff, Nat.eqb_neq in Hop. lia.
    + lia.
    + lia.
Qed.

(** So the collection returned by [getCurrent] is never ahead of the
    returned version as long as no change went unpublished. *)
Lemma getCurrent_covers_published_changes (src : Source.SyncSubscribable T)
      (ops : list (History.Op T)) :
  let p0 := Publisher.createMapArrayRemoteSubscribable src in
  History.changesPublished ops p0 = true ->
  Z.of_nat (History.generation ops)
  <= History.denotedGeneration (snd (Publisher.getCurrent (fst (History.run ops p0)))).
Proof.
  intros p0 Hpub. unfold History.denotedGeneration, History.run.
  pose proof (published_changes_bound ops p0 [] Hpub) as Hbound.
  cbn [Publisher.getCurrent snd]. change (Publisher.version p0) with 1 in Hbound.
  exact Hbound.
Qed.

End HistoryFacts.

Section PublishedDeltas.
Context {T : Type}.

(** Whatever the history, each published delta compares the new value
    with the baseline captured when the Publisher was created. *)
Lemma published_against_baseline (ops : list (History.Op T)) :
  forall (p : Publisher.t T) (log : list (Event T)) (s : SubscriberId) (d : Delta T) (v : Z),
    In (Emit s d v) (snd (fold_left History.step ops (p, log))) ->
    In (Emit s d v) log
    \/ exists value, In (History.Change value) ops
                     /\ d = Publisher.computeDelta (Publisher.current p) value.
Proof.
  induction ops as [| op rest IH]; intros p log s d v Hin.
  - left. exact Hin.
  - cbn [fold_left] in Hin.
    destruct (History.step (p, log) op) as [p' log'] eqn:Hstep.
    assert (Hbase : Publisher.current p' = Publisher.current p).
    { destruct (step_baseline (p, log) op) as [Hc _]. now rewrite Hstep in Hc. }
    apply IH in Hin. destruct Hin as [Hin | [value [Hval Hd]]].
    + destruct op as [value | s' | h s']; unfold History.step in Hstep.
      * rewrite update_record in Hstep. inversion Hstep; subst log'.
        apply in_app_or in Hin. destruct Hin as [Hin | Hin]; [now left |].
        apply emissions_In in Hin. right. exists value. split; [now left | tauto].
      * simpl in Hstep. inversion Hstep; subst log'.
        apply in_app_or in Hin. destruct Hin as [Hin | Hin]; [now left |].
        simpl in Hin. destruct Hin as [Hin | [Hin | []]]; discriminate.
      * simpl in Hstep. inversion Hstep; subst log'.
        apply in_app_or in Hin. destruct Hin as [Hin | Hin]; [now left |].
        simpl in Hin. destruct Hin as [Hin | [Hin | []]]; discriminate.
    + right. exists value. split; [now right | congruence].
Qed.

End PublishedDeltas.

(** ** The Delta Publisher: claims *)

Local Open Scope string_scope.

(** C2. The claim asks for each delta to describe the step from the value
    just before the change to the value after it.  Here the source goes
    from [("1",a); ("2",b)] to [("1",a)] and then to [("1",a); ("3",c)]:
    the second publication still lists key "2" as removed, because it is
    the delta from the construction-time value, while the delta from the
    previous value removes nothing. *)
Theorem second_delta_computed_against_initial :
  let v0 : MapArray string := [("1", "a"); ("2", "b")] in
  let v1 : MapArray string := [("1", "a")] in
  let v2 : MapArray string := [("1", "a"); ("3", "c")] in
  let p0 := Publisher.createMapArrayRemoteSubscribable (Source.createSyncSubscribable v0) in
  let log := snd (History.run [History.Subscribe 7%nat; History.Change v1; History.Change v2] p0) in
  History.deltasDeliveredTo 7%nat log
  = [ {| added := []; removed := ["2"] |};
      {| added := [("3", "c")]; removed := ["2"] |} ]
  /\ Publisher.computeDelta v0 v2 = {| added := [("3", "c")]; removed := ["2"] |}
  /\ Publisher.computeDelta v1 v2 = {| added := [("3", "c")]; removed := [] |}.
Proof. repeat split. Qed.

(** C4 fails as stated: the value under key "1" changes from "a" to "b"
    and the publication for that change carries an empty [added]. *)
Lemma value_update_is_not_published :
  let p0 := Publisher.createMapArrayRemoteSubscribable
              (Source.createSyncSubscribable [("1", "a")]) in
  let '(p1, _, _) := Publisher.subscribe 7%nat p0 in
  exists d : Delta string,
    snd (Publisher.traceUpdate [("1", "b")] p1) = [Emit 7%nat d 2]
    /\ ~ In ("1", "b") (added d).
Proof.
  simpl. eexists. split; [reflexivity |]. simpl. tauto.
Qed.

(** C4, amended.  The Publisher compares keys only.  When its comparison
    baseline is the value before the change, a key present both before and
    after the change occurs in neither [added] nor [removed] of any delta
    published for it, whatever became of its value. *)
Theorem retained_key_not_published {T : Type} (p : Publisher.t T) (next : MapArray T) (k : Key) :
  Publisher.current p = Source.current (Publisher.subscription p) ->
  In k (keys (Source.current (Publisher.subscription p))) ->
  In k (keys next) ->
  forall (s : SubscriberId) (d : Delta T) (v : Z),
    In (Emit s d v) (snd (Publisher.traceUpdate next p)) ->
    (forall x : T, ~ In (k, x) (added d)) /\ ~ In k (removed d).
Proof.
  intros Hbase Hprev Hnext s d v Hin.
  unfold Publisher.traceUpdate in Hin. rewrite update_record in Hin.
  simpl in Hin. apply emissions_In in Hin. destruct Hin as [Hd _]. subst d.
  rewrite Hbase. split.
  - intros x Hx. apply computeDelta_added in Hx. tauto.
  - intros Hx. apply computeDelta_removed in Hx. tauto.
Qed.

Lemma retained_key_not_published_witness :
  let p0 := Publisher.createMapArrayRemoteSubscribable
              (Source.createSyncSubscribable [("1", "a")]) in
  let p1 := fst (fst (Publisher.subscribe 7%nat p0)) in
  Publisher.current p1 = Source.current (Publisher.subscription p1)
  /\ In "1" (keys (Source.current (Publisher.subscription p1)))
  /\ In "1" (keys [("1", "b")])
  /\ forall (s : SubscriberId) (d : Delta string) (v : Z),
       In (Emit s d v) (snd (Publisher.traceUpdate [("1", "b")] p1)) ->
       (forall x : string, ~ In ("1", x) (added d)) /\ ~ In "1" (removed d).
Proof.
  intros p0 p1.
  assert (H1 : Publisher.current p1 = Source.current (Publisher.subscription p1))
    by reflexivity.
  assert (H2 : In "1" (keys (Source.current (Publisher.subscription p1))))
    by (simpl; left; reflexivity).
  assert (H3 : In "1" (keys [("1", "b")])) by (simpl; left; reflexivity).
  split; [exact H1 |]. split; [exact H2 |]. split; [exact H3 |].
  exact (retained_key_not_published p1 [("1", "b")] "1" H1 H2 H3).
Defined.

(** C5.  The counter is advanced by every source listener, and each
    subscription registers its own: with two subscribers one change moves
    the counter from 1 to 3, and the first subscriber is handed versions
    2 and 4 for two successive changes. *)
Theorem two_subscribers_skip_versions :
  let v0 : MapArray string := [("1", "a")] in
  let v1 : MapArray string := [("1", "a"); ("2", "b")] in
  let v2 : MapArray string := [("1", "a"); ("2", "b"); ("3", "c")] in
  let p0 := Publisher.createMapArrayRemoteSubscribable (Source.createSyncSubscribable v0) in
  let subscribed := [History.Subscribe 10%nat; History.Subscribe 20%nat] in
  let once := History.run (subscribed ++ [History.Change v1]) p0 in
  let twice := History.run (subscribed ++ [History.Change v1; History.Change v2]) p0 in
  Publisher.version p0 = 1
  /\ Publisher.version (fst (History.run subscribed p0)) = 1
  /\ Publisher.version (fst once) = 3
  /\ History.versionsDeliveredTo 10%nat (snd twice) = [2; 4]
  /\ History.versionsDeliveredTo 20%nat (snd twice) = [3; 5].
Proof. repeat split. Qed.

(** C8.  A change made while nobody is subscribed moves the source on but
    not the counter: [getCurrent] then returns the collection of
    generation 1 together with version 1, the number of generation 0. *)
Theorem getCurrent_after_unpublished_change :
  let v0 : MapArray string := [("1", "a")] in
  let v1 : MapArray string := [("1", "b")] in
  let p0 := Publisher.createMapArrayRemoteSubscribable (Source.createSyncSubscribable v0) in
  let ops := [History.Change v1] in
  let p := fst (History.run ops p0) in
  Publisher.getCurrent p0 = (v0, 1)
  /\ Publisher.getCurrent p = (v1, 1)
  /\ History.generation ops = 1%nat
  /\ History.denotedGeneration (snd (Publisher.getCurrent p)) = 0
  /\ History.denotedGeneration (snd (Publisher.getCurrent p))
     < Z.of_nat (History.generation ops).
Proof. repeat split. Qed.

(** C9 fails as stated: the trace of a teardown is not release-then-unsubscribe. *)
Lemma teardown_does_not_release_first :
  let p0 := Publisher.createMapArrayRemoteSubscribable
              (Source.createSyncSubscribable [("1", "a")]) in
  let '(p1, (h, _), _) := Publisher.subscribe 7%nat p0 in
  snd (Publisher.teardown h 7%nat p1)
  <> [Release (Callback 7%nat); SourceUnsubscribe h].
Proof. simpl. discriminate. Qed.

(** C9, amended.  For every subscription, [teardown] first unsubscribes
    the listener that this very [subscribe] registered on the source and
    then releases the retention hold that it took on the callback; the
    closure is gone from the source afterwards. *)
Theorem teardown_unsubscribes_then_releases {T : Type} (p : Publisher.t T) (s : SubscriberId) :
  let '(p1, (h, _), acquired) := Publisher.subscribe s p in
  let '(p2, released) := Publisher.teardown h s p1 in
  acquired = [Retain (Callback s); SourceSubscribe h]
  /\ released = [SourceUnsubscribe h; Release (Callback s)]
  /\ In (h, s) (Source.subscribers (Publisher.subscription p1))
  /\ ~ In (h, s) (Source.subscribers (Publisher.subscription p2)).
Proof.
  simpl. repeat split.
  - apply in_or_app. right. now left.
  - intros Hin. apply filter_In in Hin. destruct Hin as [_ Hneq].
    simpl in Hneq. now rewrite Nat.eqb_refl in Hneq.
Qed.

(** ** The Stateful Reconciler: one listener invocation *)

Section ListenerFacts.
Context {T : Type}.

(** The incoming version is the one the Reconciler expects. *)
Lemma listener_expected (value : Reconciler.Payload T) (subscription : option (Publisher.t T))
      (r : Reconciler.t T) :
  Reconciler.listener value (Reconciler.version r + 1) subscription r
  = if Reconciler.listening r then
      (Reconciler.mk (Reconciler.applyPayload value (Reconciler.current r))
                     (Reconciler.version r + 1) true (Reconciler.subscribers r),
       map (fun s => Notify s (Reconciler.applyPayload value (Reconciler.current r)))
           (Reconciler.subscribers r))
    else
      (Reconciler.mk (Reconciler.current r) (Reconciler.version r + 1) false
                     (Reconciler.subscribers r), []).
Proof.
  unfold Reconciler.listener, Reconciler.listenerEnter.
  cbn [Reconciler.version]. rewrite Z.eqb_refl. cbn [negb].
  unfold Reconciler.listenerResume.
  destruct subscription; destruct (Reconciler.listening r) eqn:Hl;
    cbn [Reconciler.listening Reconciler.current Reconciler.version
         Reconciler.subscribers negb]; reflexivity.
Qed.

(** A version gap: the fetched pair is adopted first; a listening
    Reconciler then goes on to apply the payload to the fetched value. *)
Lemma listener_gap (value : Reconciler.Payload T) (incoming : Z) (p : Publisher.t T)
      (r : Reconciler.t T) :
  incoming <> Reconciler.version r + 1 ->
  Reconciler.listener value incoming (Some p) r
  = let fetched := Publisher.getCurrent p in
    if Reconciler.listening r then
      (Reconciler.mk (Reconciler.applyPayload value (fst fetched)) (snd fetched) true
                     (Reconciler.subscribers r),
       map (fun s => Notify s (Reconciler.applyPayload value (fst fetched)))
           (Reconciler.subscribers r))
    else
      (Reconciler.mk (fst fetched) (snd fetched) false (Reconciler.subscribers r), []).
Proof.
  intros Hgap. unfold Reconciler.listener, Reconciler.listenerEnter.
  cbn [Reconciler.version]. apply Z.eqb_neq in Hgap. rewrite Hgap. cbn [negb].
  unfold Reconciler.listenerResume.
  destruct (Reconciler.listening r) eqn:Hl;
    cbn [Reconciler.listening Reconciler.current Reconciler.version
         Reconciler.subscribers negb]; reflexivity.
Qed.

(** Once [listening] is off no callback is invoked, whatever arrives. *)
Lemma listener_silent (value : Reconciler.Payload T) (incoming : Z)
      (subscription : option (Publisher.t T)) (r : Reconciler.t T) :
  Reconciler.listening r = false ->
  snd (Reconciler.listener value incoming subscription r) = []
  /\ Reconciler.listening (fst (Reconciler.listener value incoming subscription r)) = false.
Proof.
  intros Hl. unfold Reconciler.listener, Reconciler.listenerEnter.
  cbn [Reconciler.version].
  destruct subscription as [p |];
    [destruct (negb (Z.eqb incoming (Reconciler.version r + 1))) |];
    unfold Reconciler.listenerResume;
    cbn [Reconciler.listening]; rewrite Hl; cbn [negb fst snd Reconciler.listening];
    auto.
Qed.

(** The same holds for an invocation that was waiting for its fetch when
    [listening] was switched off. *)
Lemma listenerResume_silent (value : Reconciler.Payload T)
      (fetched : option (MapArray T * Z)) (r : Reconciler.t T) :
  Reconciler.listening r = false ->
  snd (Reconciler.listenerResume value fetched r) = [].
Proof.
  intros Hl. unfold Reconciler.listenerResume.
  destruct fetched; cbn [Reconciler.listening]; rewrite Hl; reflexivity.
Qed.

(** With [listening] off and the expected version, [current] is kept. *)
Lemma listener_off_expected (value : Reconciler.Payload T)
      (subscription : option (Publisher.t T)) (r : Reconciler.t T) :
  Reconciler.listening r = false ->
  Reconciler.current
    (fst (Reconciler.listener value (Reconciler.version r + 1) subscription r))
  = Reconciler.current r.
Proof. intros Hl. rewrite listener_expected, Hl. reflexivity. Qed.

End ListenerFacts.

(** ** The Stateful Reconciler: claims *)

(** C7.  A listening Reconciler that receives a delta with the expected
    version pushes every added entry onto [current] and then drops the
    entries whose key is listed as removed; so the new [current] holds
    exactly the old and the added entries whose key is not removed.  Each
    registered subscriber is then called once, in registration order, with
    that whole collection. *)
Theorem in_sync_delta_applied {T : Type} (r : Reconciler.t T) (d : Delta T) (incoming : Z)
        (subscription : option (Publisher.t T)) :
  Reconciler.listening r = true ->
  incoming = Reconciler.version r + 1 ->
  let r' := fst (Reconciler.listener (Reconciler.ADelta d) incoming subscription r) in
  let calls := snd (Reconciler.listener (Reconciler.ADelta d) incoming subscription r) in
  Reconciler.current r'
  = filter (fun e => negb (includes (removed d) (fst e))) (Reconciler.current r ++ added d)
  /\ (forall (k : Key) (v : T),
        In (k, v) (Reconciler.current r')
        <-> (In (k, v) (Reconciler.current r) \/ In (k, v) (added d)) /\ ~ In k (removed d))
  /\ calls = map (fun s => Notify s (Reconciler.current r')) (Reconciler.subscribers r)
  /\ Reconciler.version r' = incoming
  /\ Reconciler.subscribers r' = Reconciler.subscribers r.
Proof.
  intros Hl Hv. subst incoming. rewrite listener_expected, Hl.
  cbn [fst snd Reconciler.current Reconciler.version Reconciler.subscribers].
  split; [apply applyPayload_delta |].
  split; [intros k v; apply applyPayload_delta_In |].
  repeat split.
Qed.

Lemma in_sync_delta_applied_witness :
  let r := Reconciler.mk [("1", "First"); ("2", "Second")] 1 true [4%nat; 9%nat] in
  let d := {| added := [("3", "Third")]; removed := ["2"] |} in
  Reconciler.listening r = true
  /\ 2 = Reconciler.version r + 1
  /\ Reconciler.current (fst (Reconciler.listener (Reconciler.ADelta d) 2 None r))
     = [("1", "First"); ("3", "Third")]
  /\ snd (Reconciler.listener (Reconciler.ADelta d) 2 None r)
     = [Notify 4%nat [("1", "First"); ("3", "Third")];
        Notify 9%nat [("1", "First"); ("3", "Third")]].
Proof.
  intros r d.
  assert (Hl : Reconciler.listening r = true) by reflexivity.
  assert (Hv : 2 = Reconciler.version r + 1) by reflexivity.
  destruct (in_sync_delta_applied r d 2 None Hl Hv) as [Hcur [_ [Hcalls _]]].
  split; [exact Hl |]. split; [exact Hv |]. split.
  - rewrite Hcur. reflexivity.
  - rewrite Hcalls, Hcur. reflexivity.
Defined.

(** C3.  The host goes through two changes and only the second
    publication (version 3) reaches a Reconciler that still holds version
    1.  The listener fetches [getCurrent()], which answers with the live
    collection and version 3, and then applies the incoming delta on top
    of the fetched value: the entries under "2" and "3" end up twice in
    [current], which therefore differs from the fetched collection. *)
Theorem desync_applies_delta_after_resync :
  let v0 : MapArray string := [("1", "a")] in
  let v1 : MapArray string := [("1", "a"); ("2", "b")] in
  let v2 : MapArray string := [("1", "a"); ("2", "b"); ("3", "c")] in
  let p0 := Publisher.createMapArrayRemoteSubscribable (Source.createSyncSubscribable v0) in
  let '(p1, r, _, _) := Reconciler.makeStatefulListSubscribable Bridge.self p0 in
  let '(p2, log) := History.run [History.Change v1; History.Change v2] p1 in
  let d2 := {| added := [("2", "b"); ("3", "c")]; removed := [] |} in
  let '(r', calls) := Reconciler.listener (Reconciler.ADelta d2) 3 (Some p2) r in
  Reconciler.current r = v0 /\ Reconciler.version r = 1
  /\ log = [Emit Bridge.self {| added := [("2", "b")]; removed := [] |} 2;
            Emit Bridge.self d2 3]
  /\ Publisher.getCurrent p2 = (v2, 3)
  /\ Reconciler.version r' = 3
  /\ Reconciler.current r' = (v2 ++ [("2", "b"); ("3", "c")])%list
  /\ Reconciler.current r' <> fst (Publisher.getCurrent p2).
Proof.
  simpl. repeat split. discriminate.
Qed.

(** C6.  The host has gone through two changes when the Reconciler is
    destroyed, and the publication with version 3 is processed by a
    Reconciler that still holds version 1: either it is delivered after
    [destroy], or its listener invocation was waiting for [getCurrent()]
    while [destroy] ran.  Either way no callback is invoked, but the version
    gap makes the listener store the fetched collection in [current]
    before it looks at [listening]. *)
Theorem destroyed_listener_overwrites_current :
  let v0 : MapArray string := [("1", "a")] in
  let v1 : MapArray string := [("1", "a"); ("2", "b")] in
  let v2 : MapArray string := [("2", "b")] in
  let p0 := Publisher.createMapArrayRemoteSubscribable (Source.createSyncSubscribable v0) in
  let '(p1, r1, h, _) :=
    Reconciler.makeStatefulListSubscribable Bridge.self p0 in
  let r2 := Reconciler.subscribe 4%nat r1 in
  let '(p2, log) := History.run [History.Change v1; History.Change v2] p1 in
  let d2 := {| added := [("2", "b")]; removed := ["1"] |} in
  (* delivered after destroy *)
  let '(p3, r3, _) := Reconciler.destroy Bridge.self h (p2, r2) in
  let '(r4, calls) := Reconciler.listener (Reconciler.ADelta d2) 3 (Some p3) r3 in
  (* entered before destroy, resumed after it *)
  let '(e2, fetched) := Reconciler.listenerEnter 3 (Some p2) r2 in
  let '(_, e3, _) := Reconciler.destroy Bridge.self h (p2, e2) in
  let '(e4, calls') := Reconciler.listenerResume (Reconciler.ADelta d2) fetched e3 in
  History.deltasDeliveredTo Bridge.self log = [ {| added := [("2", "b")]; removed := [] |}; d2 ]
  /\ History.versionsDeliveredTo Bridge.self log = [2; 3]
  /\ (Reconciler.listening r3 = false /\ Reconciler.current r3 = v0)
  /\ (calls = [] /\ Reconciler.current r4 = v2 /\ Reconciler.current r4 <> Reconciler.current r3)
  /\ (Reconciler.listening e3 = false /\ Reconciler.current e3 = v0)
  /\ (calls' = [] /\ Reconciler.current e4 = v2 /\ Reconciler.current e4 <> Reconciler.current e3).
Proof.
  simpl. repeat split; discriminate.
Qed.

(** ** The Reconciler's subscriber set *)

Section SubscriberSet.

Lemma setAdd_In (s x : SubscriberId) (l : list SubscriberId) :
  In x (Reconciler.setAdd s l) <-> In x l \/ x = s.
Proof.
  unfold Reconciler.setAdd. destruct (existsb (Nat.eqb s) l) eqn:Hmem.
  - apply existsb_exists in Hmem. destruct Hmem as [y [Hy Heq]].
    apply Nat.eqb_eq in Heq. subst y. split; [tauto |].
    intros [H | H]; [assumption | now subst].
  - rewrite in_app_iff. simpl. intuition auto.
Qed.

Lemma setDelete_In (s x : SubscriberId) (l : list SubscriberId) :
  In x (Reconciler.setDelete s l) <-> In x l /\ x <> s.
Proof.
  unfold Reconciler.setDelete. rewrite filter_In, negb_true_iff, Nat.eqb_neq.
  reflexivity.
Qed.

Lemma setDelete_idempotent (s : SubscriberId) (l : list SubscriberId) :
  Reconciler.setDelete s (Reconciler.setDelete s l) = Reconciler.setDelete s l.
Proof.
  unfold Reconciler.setDelete. induction l as [| x l IH]; simpl; [reflexivity |].
  destruct (negb (Nat.eqb x s)) eqn:Hx; simpl; [rewrite Hx, IH |]; auto.
Qed.

(** A callback is a member at most once, as in a [Set]. *)
Lemma setAdd_NoDup (s : SubscriberId) (l : list SubscriberId) :
  NoDup l -> NoDup (Reconciler.setAdd s l).
Proof.
  intros Hnd. unfold Reconciler.setAdd.
  destruct (existsb (Nat.eqb s) l) eqn:Hmem; [assumption |].
  apply NoDup_app; [assumption | repeat constructor; auto |].
  intros x Hx [Heq | []]. subst x.
  assert (Hex : existsb (Nat.eqb s) l = true).
  { apply existsb_exists. exists s. split; [assumption | apply Nat.eqb_refl]. }
  congruence.
Qed.

Lemma setDelete_NoDup (s : SubscriberId) (l : list SubscriberId) :
  NoDup l -> NoDup (Reconciler.setDelete s l).
Proof. apply NoDup_filter. Qed.

End SubscriberSet.

(** C10.  [subscribe] and the function it returns touch the subscriber
    set only: [current], the version counter and [listening] are as
    before.  After [subscribe(s)] the members are the old ones and [s];
    the returned function takes [s] out and keeps every other member, and
    calling it again changes nothing. *)
Theorem subscription_management_frame {T : Type} (r : Reconciler.t T) (s : SubscriberId) :
  let r1 := Reconciler.subscribe s r in
  let r2 := Reconciler.unsubscribe s r in
  (Reconciler.current r1, Reconciler.version r1, Reconciler.listening r1)
  = (Reconciler.current r, Reconciler.version r, Reconciler.listening r)
  /\ (Reconciler.current r2, Reconciler.version r2, Reconciler.listening r2)
     = (Reconciler.current r, Reconciler.version r, Reconciler.listening r)
  /\ (forall x, In x (Reconciler.subscribers r1) <-> In x (Reconciler.subscribers r) \/ x = s)
  /\ (forall x, In x (Reconciler.subscribers r2) <-> In x (Reconciler.subscribers r) /\ x <> s)
  /\ Reconciler.unsubscribe s r2 = r2.
Proof.
  cbn zeta. split; [reflexivity |]. split; [reflexivity |].
  split; [intros x; apply setAdd_In |].
  split; [intros x; apply setDelete_In |].
  unfold Reconciler.unsubscribe.
  cbn [Reconciler.current Reconciler.version Reconciler.listening Reconciler.subscribers].
  now rewrite setDelete_idempotent.
Qed.

(** ** Publisher and Reconciler together *)

Section RoundTrip.
Context {T : Type}.

Lemma first_update_replica (v0 v1 : MapArray T) :
  Reconciler.current (Bridge.remote (Bridge.hostUpdate v1 (Bridge.connect v0)))
  = Reconciler.applyPayload (Reconciler.ADelta (Publisher.computeDelta v0 v1)) v0.
Proof. reflexivity. Qed.

Lemma first_update_live (v0 v1 : MapArray T) :
  Bridge.live (Bridge.hostUpdate v1 (Bridge.connect v0)) = v1.
Proof. reflexivity. Qed.

(** After the first change the replica has exactly the keys of the live
    collection, whatever happened to the values. *)
Lemma first_update_keys (v0 v1 : MapArray T) (k : Key) :
  In k (keys (Reconciler.current (Bridge.remote (Bridge.hostUpdate v1 (Bridge.connect v0)))))
  <-> In k (keys v1).
Proof.
  rewrite first_update_replica. unfold keys at 1. rewrite in_map_iff. split.
  - intros [[k' v] [Hk Hin]]. simpl in Hk. subst k'.
    apply applyPayload_delta_In in Hin. destruct Hin as [[Hin | Hin] Hrem].
    + destruct (key_In_dec k v1) as [Hk1 | Hk1]; [assumption |].
      exfalso. apply Hrem. apply computeDelta_removed.
      split; [eapply key_of_entry; eauto | assumption].
    + apply computeDelta_added in Hin. eapply key_of_entry. apply Hin.
  - intros Hk1. destruct (key_In_dec k v0) as [Hk0 | Hk0].
    + unfold keys in Hk0. apply in_map_iff in Hk0. destruct Hk0 as [[k' v] [Hk Hin]].
      simpl in Hk. subst k'. exists (k, v). split; [reflexivity |].
      apply applyPayload_delta_In. split; [now left |].
      intros Hrem. apply computeDelta_removed in Hrem. tauto.
    + unfold keys in Hk1. apply in_map_iff in Hk1. destruct Hk1 as [[k' v] [Hk Hin]].
      simpl in Hk. subst k'. exists (k, v). split; [reflexivity |].
      apply applyPayload_delta_In. split.
      * right. apply computeDelta_added. tauto.
      * intros Hrem. apply computeDelta_removed in Hrem. tauto.
Qed.

End RoundTrip.

(** C1 fails as stated.  A change of the value under a kept key is not
    transmitted, so one update already leaves the replica behind; and a key
    of the construction-time collection that is removed and later put back
    never returns to the replica. *)
Lemma round_trip_fails :
  ~ Bridge.inSync (Bridge.run [[("1", "b")]] (Bridge.connect [("1", "a")]))
  /\ ~ Bridge.inSync
         (Bridge.run [[("1", "a")]; [("1", "a"); ("2", "b")]]
                     (Bridge.connect [("1", "a"); ("2", "b")])).
Proof.
  split; intros Hsync.
  - destruct (Hsync ("1", "b")) as [_ Hback].
    vm_compute in Hback. destruct Hback as [Heq | []]; [now left | discriminate].
  - destruct (Hsync ("2", "b")) as [_ Hback].
    vm_compute in Hback.
    destruct Hback as [Heq | []]; [right; now left | discriminate].
Qed.

(** ** One host update of a pair, other subscribers allowed *)

Section UpdateStep.
Context {T : Type}.

(** Listeners of other subscribers count the version up and record their
    publication; they leave the Reconciler alone. *)
Lemma foreign_listeners_fold (value : MapArray T) (l : list (Handle * SubscriberId)) :
  Forall (fun hs => snd hs <> Bridge.self) l ->
  forall (p : Publisher.t T) (r : Reconciler.t T) (tr : list (Event T)),
    fold_left (fun acc hs => Publisher.listener Bridge.callbacks (snd hs) (Some value) acc)
              l (p, (r, tr))
    = (Publisher.mk (Publisher.subscription p) (Publisher.initial p)
                    (Publisher.current p)
                    (Publisher.version p + Z.of_nat (List.length l)),
       (r, (tr ++ History.emissions l (Publisher.computeDelta (Publisher.current p) value)
                                    (Publisher.version p))%list)).
Proof.
  induction l as [| hs rest IH]; intros Hforeign p r tr.
  - simpl. rewrite Z.add_0_r, app_nil_r. now destruct p.
  - inversion Hforeign as [| x xs Hhs Hrest]; subst.
    cbn [fold_left List.length History.emissions]. unfold Publisher.listener at 2.
    unfold Bridge.callbacks at 2. apply Nat.eqb_neq in Hhs. rewrite Hhs.
    cbn [fst snd]. rewrite (IH Hrest).
    cbn [Publisher.subscription Publisher.initial Publisher.current Publisher.version].
    rewrite <- app_assoc. cbn [app]. do 2 f_equal. lia.
Qed.

(** What a change does when the Reconciler's closure is registered once:
    one listener invocation of the Reconciler, with the delta against the
    baseline and the version reached by the listeners registered before
    it; a fetch made by that invocation sees the new value. *)
Lemma update_delivery (value : MapArray T) (p : Publisher.t T) (r : Reconciler.t T)
      (tr : list (Event T)) (before after : list (Handle * SubscriberId)) (h : Handle) :
  Source.subscribers (Publisher.subscription p)
  = (before ++ (h, Bridge.self) :: after)%list ->
  Forall (fun hs => snd hs <> Bridge.self) before ->
  Forall (fun hs => snd hs <> Bridge.self) after ->
  let v := Publisher.version p + Z.of_nat (List.length before) + 1 in
  let served := Publisher.mk (Source.assign value (Publisher.subscription p))
                             (Publisher.initial p) (Publisher.current p) v in
  exists tr' : list (Event T),
    Publisher.update Bridge.callbacks value (p, (r, tr))
    = (Publisher.mk (Source.assign value (Publisher.subscription p))
                    (Publisher.initial p) (Publisher.current p)
                    (v + Z.of_nat (List.length after)),
       (fst (Reconciler.listener
               (Reconciler.ADelta (Publisher.computeDelta (Publisher.current p) value))
               v (Some served) r),
        tr')).
Proof.
  intros Hsubs Hbefore Hafter. cbn zeta.
  unfold Publisher.update.
  cbn [Publisher.subscription Source.assign Source.subscribers]. rewrite Hsubs.
  rewrite fold_left_app, (foreign_listeners_fold value before Hbefore).
  cbn [fold_left]. unfold Publisher.listener at 2.
  cbn [Publisher.subscription Publisher.initial Publisher.current Publisher.version snd].
  unfold Bridge.callbacks at 2. change (Nat.eqb Bridge.self Bridge.self) with true.
  cbn iota. cbn [fst snd].
  match goal with
  | |- context [Reconciler.listener ?d ?v ?sub ?r0] =>
      destruct (Reconciler.listener d v sub r0) as [r' evs] eqn:Hdeliver
  end.
  rewrite (foreign_listeners_fold value after Hafter).
  cbn [Publisher.subscription Publisher.initial Publisher.current Publisher.version fst].
  eexists. reflexivity.
Qed.

Lemma hostUpdate_delivery (value : MapArray T) (sys : Bridge.t T)
      (before after : list (Handle * SubscriberId)) (h : Handle) :
  Source.subscribers (Publisher.subscription (Bridge.host sys))
  = (before ++ (h, Bridge.self) :: after)%list ->
  Forall (fun hs => snd hs <> Bridge.self) before ->
  Forall (fun hs => snd hs <> Bridge.self) after ->
  let p := Bridge.host sys in
  let v := Publisher.version p + Z.of_nat (List.length before) + 1 in
  let served := Publisher.mk (Source.assign value (Publisher.subscription p))
                             (Publisher.initial p) (Publisher.current p) v in
  Bridge.remote (Bridge.hostUpdate value sys)
  = fst (Reconciler.listener
           (Reconciler.ADelta (Publisher.computeDelta (Publisher.current p) value))
           v (Some served) (Bridge.remote sys))
  /\ Bridge.live (Bridge.hostUpdate value sys) = value.
Proof.
  intros Hsubs Hbefore Hafter. cbn zeta.
  destruct (update_delivery value (Bridge.host sys) (Bridge.remote sys) (Bridge.trace sys)
              before after h Hsubs Hbefore Hafter) as [tr' Hupdate].
  cbn zeta in Hupdate.
  unfold Bridge.hostUpdate, Bridge.live. rewrite Hupdate. split; reflexivity.
Qed.

End UpdateStep.

(** C1, amended.  For a host update that finds the Reconciler listening
    and subscribed to the Publisher (other subscribers may be registered
    too, and the versions need not agree), with the Publisher's comparison
    baseline equal to the host's collection before the update and the
    Reconciler's [current] holding the same (key, value) pairs as that
    collection: if every key kept by the update keeps its entries, then
    once the publication is processed the Reconciler's [current] and the
    host's live collection hold the same (key, value) pairs. *)
Theorem update_round_trip {T : Type} (value : MapArray T) (sys : Bridge.t T) :
  Session.subscribedOnce sys ->
  Reconciler.listening (Bridge.remote sys) = true ->
  Publisher.current (Bridge.host sys) = Bridge.live sys ->
  Bridge.inSync sys ->
  Bridge.retainedUnchanged (Bridge.live sys) value ->
  Bridge.inSync (Bridge.hostUpdate value sys).
Proof.
  intros [before [after [h [Hsubs [Hbefore Hafter]]]]] Hl Hbase Hsync Hkept [k v].
  destruct (hostUpdate_delivery value sys before after h Hsubs Hbefore Hafter)
    as [Hremote Hlive].
  cbn zeta in Hremote. rewrite Hremote, Hlive, Hbase. clear Hremote Hlive.
  set (incoming := Publisher.version (Bridge.host sys) + Z.of_nat (List.length before) + 1).
  destruct (Z.eq_dec incoming (Reconciler.version (Bridge.remote sys) + 1)) as [Heq | Hgap].
  - (* the expected version: the delta is applied to the replica *)
    rewrite Heq, listener_expected, Hl. cbn [fst Reconciler.current].
    rewrite applyPayload_delta_In, computeDelta_added, computeDelta_removed.
    rewrite (Hsync (k, v)). split.
    + intros [[Hin | [Hin _]] Hrem]; [| assumption].
      destruct (key_In_dec k value) as [Hk1 | Hk1].
      * apply (Hkept k v); [eapply key_of_entry; eauto | assumption | assumption].
      * exfalso. apply Hrem. split; [eapply key_of_entry; eauto | assumption].
    + intros Hin. pose proof (key_of_entry k v value Hin) as Hk1.
      destruct (key_In_dec k (Bridge.live sys)) as [Hk0 | Hk0].
      * split; [left; now apply (Hkept k v) | tauto].
      * split; [right; tauto | tauto].
  - (* a gap: the new value is fetched, then the delta is applied to it *)
    rewrite (listener_gap _ _ _ _ Hgap). cbn zeta. rewrite Hl.
    cbn [fst snd Reconciler.current Publisher.getCurrent Publisher.subscription
         Source.assign Source.current].
    rewrite applyPayload_delta_In, computeDelta_added, computeDelta_removed.
    split; [tauto |].
    intros Hin. pose proof (key_of_entry k v value Hin). tauto.
Qed.

Lemma update_round_trip_witness :
  let v0 : MapArray string := [("1", "First"); ("2", "Second")] in
  let v1 : MapArray string := [("1", "First"); ("3", "Third")] in
  let p0 := Publisher.createMapArrayRemoteSubscribable (Source.createSyncSubscribable v0) in
  let p1 := fst (fst (Publisher.subscribe 9%nat p0)) in
  let made := Reconciler.makeStatefulListSubscribable Bridge.self p1 in
  let sys := Bridge.mk (fst (fst (fst made))) (snd (fst (fst made))) (snd (fst made))
                       (snd made) in
  Session.subscribedOnce sys
  /\ Reconciler.listening (Bridge.remote sys) = true
  /\ Publisher.current (Bridge.host sys) = Bridge.live sys
  /\ Bridge.inSync sys
  /\ Bridge.retainedUnchanged (Bridge.live sys) v1
  /\ Bridge.inSync (Bridge.hostUpdate v1 sys).
Proof.
  intros v0 v1 p0 p1 made sys.
  assert (Honce : Session.subscribedOnce sys).
  { exists [(0%nat, 9%nat)], [], 1%nat. split; [reflexivity |].
    split; [| constructor]. constructor; [| constructor]. simpl. discriminate. }
  assert (Hl : Reconciler.listening (Bridge.remote sys) = true) by reflexivity.
  assert (Hbase : Publisher.current (Bridge.host sys) = Bridge.live sys) by reflexivity.
  assert (Hsync : Bridge.inSync sys) by (intros e; reflexivity).
  assert (Hkept : Bridge.retainedUnchanged (Bridge.live sys) v1).
  { intros k v Hk0 Hk1. simpl in Hk0, Hk1.
    destruct Hk0 as [Hk | [Hk | []]]; subst k.
    - simpl. split; intros [Heq | [Heq | []]];
        solve [left; exact Heq | discriminate].
    - destruct Hk1 as [Hk | [Hk | []]]; discriminate. }
  split; [exact Honce |]. split; [exact Hl |]. split; [exact Hbase |].
  split; [exact Hsync |]. split; [exact Hkept |].
  exact (update_round_trip v1 sys Honce Hl Hbase Hsync Hkept).
Defined.

(** The condition on the comparison baseline cannot be dropped: a change
    made before anybody subscribed leaves the baseline behind, and the next
    update, which puts key "1" back, does not reach a Reconciler made in
    between. *)
Lemma stale_baseline_breaks_round_trip :
  let p0 := Publisher.createMapArrayRemoteSubscribable
              (Source.createSyncSubscribable [("1", "a")]) in
  let p1 := fst (History.run [History.Change []] p0) in
  let made := Reconciler.makeStatefulListSubscribable Bridge.self p1 in
  let sys := Bridge.mk (fst (fst (fst made))) (snd (fst (fst made))) (snd (fst made))
                       (snd made) in
  Bridge.inSync sys
  /\ Bridge.retainedUnchanged (Bridge.live sys) [("1", "a")]
  /\ Publisher.current (Bridge.host sys) <> Bridge.live sys
  /\ ~ Bridge.inSync (Bridge.hostUpdate [("1", "a")] sys).
Proof.
  cbn zeta. split; [intros e; reflexivity |].
  split; [intros k v Hk; destruct Hk |].
  split; [discriminate |].
  intros Hsync. destruct (Hsync ("1", "a")) as [_ Hback].
  vm_compute in Hback. apply Hback. now left.
Qed.

(** * Further properties of the code *)

Local Close Scope string_scope.

(** ** Deltas and their application *)

Section DeltaFacts.
Context {T : Type}.

Lemma filter_all (A : Type) (f : A -> bool) (l : list A) :
  (forall x, In x l -> f x = true) -> filter f l = l.
Proof.
  induction l as [| a l IH]; intros H; simpl; [reflexivity |].
  rewrite (H a (or_introl eq_refl)). f_equal. apply IH. intros x Hx. apply H. now right.
Qed.

Lemma filter_none (A : Type) (f : A -> bool) (l : list A) :
  (forall x, In x l -> f x = false) -> filter f l = [].
Proof.
  induction l as [| a l IH]; intros H; simpl; [reflexivity |].
  rewrite (H a (or_introl eq_refl)). apply IH. intros x Hx. apply H. now right.
Qed.

Lemma filter_twice (A : Type) (f : A -> bool) (l : list A) :
  filter f (filter f l) = filter f l.
Proof.
  induction l as [| a l IH]; [reflexivity |].
  cbn [filter]. destruct (f a) eqn:Hfa; [| exact IH].
  cbn [filter]. rewrite Hfa. now f_equal.
Qed.

Lemma bool_eq_iff (a b : bool) : (a = true <-> b = true) -> a = b.
Proof. destruct a, b; intuition congruence. Qed.

Lemma entry_key_In (e : Key * T) (m : MapArray T) : In e m -> In (fst e) (keys m).
Proof. intros H. unfold keys. now apply in_map. Qed.

Lemma keys_filter_In (f : Key * T -> bool) (m : MapArray T) (k : Key) :
  In k (keys (filter f m)) -> In k (keys m).
Proof.
  unfold keys. rewrite !in_map_iff. intros [e [Hk Hin]].
  apply filter_In in Hin. exists e. tauto.
Qed.

Lemma keys_filter_NoDup (f : Key * T -> bool) (m : MapArray T) :
  NoDup (keys m) -> NoDup (keys (filter f m)).
Proof.
  induction m as [| e m IH]; simpl; intros Hnd; [constructor |].
  inversion Hnd as [| k ks Hnotin Hrest]; subst.
  destruct (f e); [| now apply IH].
  simpl. constructor; [| now apply IH].
  intros Hin. apply Hnotin. eapply keys_filter_In. exact Hin.
Qed.

(** With unique keys, an entry is determined by its key. *)
Lemma unique_key_entry (m : MapArray T) (a b : Key * T) :
  NoDup (keys m) -> In a m -> In b m -> fst a = fst b -> a = b.
Proof.
  induction m as [| e m IH]; simpl; intros Hnd Ha Hb Hk; [tauto |].
  inversion Hnd as [| k ks Hnotin Hrest]; subst.
  destruct Ha as [Ha | Ha], Hb as [Hb | Hb].
  - congruence.
  - subst a. exfalso. apply Hnotin. rewrite Hk. now apply entry_key_In.
  - subst b. exfalso. apply Hnotin. rewrite <- Hk. now apply entry_key_In.
  - now apply IH.
Qed.

Lemma added_key_not_removed (cur next : MapArray T) (k : Key) :
  In k (keys (added (Publisher.computeDelta cur next))) ->
  ~ In k (removed (Publisher.computeDelta cur next)).
Proof.
  intros Hadd Hrem. apply computeDelta_removed in Hrem.
  simpl in Hadd. apply keys_filter_In in Hadd. tauto.
Qed.

(** X1.  Nothing is both added and removed by a computed delta: added
    entries carry keys of the new value, removed keys are absent from it. *)
Theorem computeDelta_disjoint (cur next : MapArray T) (k : Key) :
  In k (keys (added (Publisher.computeDelta cur next))) ->
  ~ In k (removed (Publisher.computeDelta cur next)).
Proof. apply added_key_not_removed. Qed.

(** X2.  Against an empty baseline everything is added and nothing
    removed; towards an empty value nothing is added and every key of the
    baseline is removed, in the baseline's order. *)
Theorem computeDelta_empty (m : MapArray T) :
  Publisher.computeDelta [] m = {| added := m; removed := [] |}
  /\ Publisher.computeDelta m [] = {| added := []; removed := keys m |}.
Proof.
  unfold Publisher.computeDelta. split.
  - simpl. f_equal. apply filter_all. reflexivity.
  - cbn [filter]. rewrite filter_all by reflexivity. reflexivity.
Qed.

(** X3.  A change that keeps the key set of the baseline publishes the
    empty delta, whatever happened to values and order. *)
Theorem computeDelta_same_keys (cur next : MapArray T) :
  (forall k, In k (keys cur) <-> In k (keys next)) ->
  Publisher.computeDelta cur next = {| added := []; removed := [] |}.
Proof.
  intros Hsame. unfold Publisher.computeDelta. f_equal.
  - apply filter_none. intros e He. apply negb_false_iff, some_key_In.
    apply Hsame. now apply entry_key_In.
  - rewrite filter_none; [reflexivity |]. intros e He.
    apply negb_false_iff, some_key_In. apply Hsame. now apply entry_key_In.
Qed.

Lemma applied_delta_shape (prev next : MapArray T) :
  Reconciler.applyPayload (Reconciler.ADelta (Publisher.computeDelta prev next)) prev
  = filter (fun e => some_key (fst e) next) prev
    ++ filter (fun e => negb (some_key (fst e) prev)) next.
Proof.
  rewrite applyPayload_delta, filter_app. f_equal.
  - apply filter_ext_in. intros e He. apply bool_eq_iff.
    rewrite excluded_In, computeDelta_removed, some_key_In.
    pose proof (entry_key_In e prev He).
    destruct (key_In_dec (fst e) next); tauto.
  - apply filter_all. intros e He. apply excluded_In.
    apply added_key_not_removed. now apply entry_key_In.
Qed.

(** X4.  Applying to a collection the delta computed from it: the result
    is the entries of the old value whose key survives, in their old order,
    followed by the entries of the new value under new keys, in their new
    order. *)
Theorem apply_computed_delta (prev next : MapArray T) :
  Reconciler.applyPayload (Reconciler.ADelta (Publisher.computeDelta prev next)) prev
  = filter (fun e => some_key (fst e) next) prev
    ++ filter (fun e => negb (some_key (fst e) prev)) next.
Proof. apply applied_delta_shape. Qed.

(** X5.  Key uniqueness is kept: if neither the old nor the new value
    repeats a key, the replica obtained by applying the computed delta to
    the old value repeats none. *)
Theorem apply_computed_delta_unique_keys (prev next : MapArray T) :
  NoDup (keys prev) -> NoDup (keys next) ->
  NoDup (keys (Reconciler.applyPayload
                 (Reconciler.ADelta (Publisher.computeDelta prev next)) prev)).
Proof.
  intros Hp Hn. rewrite applied_delta_shape. unfold keys. rewrite map_app.
  apply NoDup_app.
  - now apply keys_filter_NoDup.
  - now apply keys_filter_NoDup.
  - intros k Hk Hk'. apply keys_filter_In in Hk.
    apply in_map_iff in Hk'. destruct Hk' as [e [Hke He]].
    apply filter_In in He. destruct He as [_ Habs].
    apply absent_key_In in Habs. congruence.
Qed.

End DeltaFacts.

Lemma computeDelta_disjoint_witness :
  let cur : MapArray nat := [("1"%string, 1%nat); ("2"%string, 2%nat)] in
  let next : MapArray nat := [("1"%string, 1%nat); ("3"%string, 3%nat)] in
  In "3"%string (keys (added (Publisher.computeDelta cur next)))
  /\ ~ In "3"%string (removed (Publisher.computeDelta cur next)).
Proof.
  intros cur next.
  assert (H : In "3"%string (keys (added (Publisher.computeDelta cur next))))
    by (simpl; left; reflexivity).
  split; [exact H |].
  exact (computeDelta_disjoint cur next "3"%string H).
Defined.

Lemma computeDelta_same_keys_witness :
  let cur : MapArray nat := [("1"%string, 1%nat); ("2"%string, 2%nat)] in
  let next : MapArray nat := [("2"%string, 7%nat); ("1"%string, 1%nat)] in
  (forall k, In k (keys cur) <-> In k (keys next))
  /\ Publisher.computeDelta cur next = {| added := []; removed := [] |}.
Proof.
  intros cur next.
  assert (H : forall k, In k (keys cur) <-> In k (keys next))
    by (intros k; simpl; tauto).
  split; [exact H |].
  exact (computeDelta_same_keys cur next H).
Defined.

Lemma apply_computed_delta_unique_keys_witness :
  let prev : MapArray nat := [("1"%string, 1%nat); ("2"%string, 2%nat)] in
  let next : MapArray nat := [("3"%string, 3%nat); ("1"%string, 9%nat)] in
  NoDup (keys prev) /\ NoDup (keys next)
  /\ NoDup (keys (Reconciler.applyPayload
                    (Reconciler.ADelta (Publisher.computeDelta prev next)) prev)).
Proof.
  intros prev next.
  assert (Hp : NoDup (keys prev)).
  { simpl. repeat constructor; simpl; intuition discriminate. }
  assert (Hn : NoDup (keys next)).
  { simpl. repeat constructor; simpl; intuition discriminate. }
  split; [exact Hp |]. split; [exact Hn |].
  exact (apply_computed_delta_unique_keys prev next Hp Hn).
Defined.

(** ** Exact replication of one update *)

Section ExactReplication.
Context {T : Type}.

Lemma applied_delta_exact (prev extra : MapArray T) (keep : Key * T -> bool) :
  NoDup (keys prev) ->
  (forall k, In k (keys extra) -> ~ In k (keys prev)) ->
  Reconciler.applyPayload
    (Reconciler.ADelta (Publisher.computeDelta prev (filter keep prev ++ extra))) prev
  = filter keep prev ++ extra.
Proof.
  intros Hnd Hfresh. rewrite applied_delta_shape. f_equal.
  - apply filter_ext_in. intros e He. apply bool_eq_iff.
    rewrite some_key_In. unfold keys. rewrite map_app, in_app_iff. split.
    + intros [Hin | Hin].
      * apply in_map_iff in Hin. destruct Hin as [e' [Hk He']].
        apply filter_In in He'. destruct He' as [He' Hkeep].
        assert (e' = e) by (eapply unique_key_entry; eauto). now subst.
      * exfalso. apply (Hfresh (fst e) Hin). now apply entry_key_In.
    + intros Hkeep. left. apply in_map. apply filter_In. tauto.
  - rewrite filter_app. rewrite filter_none.
    + simpl. apply filter_all. intros e He. apply absent_key_In.
      apply Hfresh. now apply entry_key_In.
    + intros e He. apply filter_In in He. apply negb_false_iff, some_key_In.
      apply entry_key_In. tauto.
Qed.

End ExactReplication.

(** ** The version counter along a history *)

Section CounterFacts.
Context {T : Type}.

Lemma step_log (p : Publisher.t T) (log : list (Event T)) (op : History.Op T) :
  snd (History.step (p, log) op) = log ++ snd (History.step (p, []) op).
Proof.
  destruct op as [value | s | h s]; unfold History.step.
  - now rewrite !update_record.
  - reflexivity.
  - reflexivity.
Qed.

Lemma versionsEmitted_app (a b : list (Event T)) :
  Observe.versionsEmitted (a ++ b) = Observe.versionsEmitted a ++ Observe.versionsEmitted b.
Proof.
  induction a as [| e a IH]; simpl; [reflexivity |].
  destruct e; simpl; now rewrite IH.
Qed.

Lemma versionsEmitted_emissions (l : list (Handle * SubscriberId)) (d : Delta T) (v : Z) :
  Observe.versionsEmitted (History.emissions l d v) = Observe.countUp v (List.length l).
Proof.
  revert v. induction l as [| hs l IH]; intros v; simpl; [reflexivity |].
  now rewrite IH.
Qed.

Lemma countUp_app (v : Z) (n m : nat) :
  Observe.countUp v (n + m) = Observe.countUp v n ++ Observe.countUp (v + Z.of_nat n) m.
Proof.
  revert v. induction n as [| n IH]; intros v.
  - simpl. now rewrite Z.add_0_r.
  - cbn [Nat.add Observe.countUp app]. rewrite IH. do 3 f_equal. lia.
Qed.

Lemma countUp_length (v : Z) (n : nat) : List.length (Observe.countUp v n) = n.
Proof. revert v. induction n as [| n IH]; intros v; simpl; [reflexivity | now rewrite IH]. Qed.

(** What one operation adds to the publications and to the counter. *)
Lemma step_versions (p : Publisher.t T) (op : History.Op T) :
  exists n : nat,
    Observe.versionsEmitted (snd (History.step (p, []) op))
    = Observe.countUp (Publisher.version p) n
    /\ Publisher.version (fst (History.step (p, []) op))
       = Publisher.version p + Z.of_nat n.
Proof.
  destruct op as [value | s | h s]; unfold History.step.
  - exists (List.length (Source.subscribers (Publisher.subscription p))).
    rewrite update_record. cbn [fst snd app Publisher.version].
    now rewrite versionsEmitted_emissions.
  - exists 0%nat. simpl. split; [reflexivity | lia].
  - exists 0%nat. simpl. split; [reflexivity | lia].
Qed.

Lemma run_versions (ops : list (History.Op T)) :
  forall (p : Publisher.t T) (log : list (Event T)) (v0 : Z),
    Observe.versionsEmitted log
    = Observe.countUp v0 (List.length (Observe.versionsEmitted log)) ->
    Publisher.version p = v0 + Z.of_nat (List.length (Observe.versionsEmitted log)) ->
    let final := fold_left History.step ops (p, log) in
    Observe.versionsEmitted (snd final)
    = Observe.countUp v0 (List.length (Observe.versionsEmitted (snd final)))
    /\ Publisher.version (fst final)
       = v0 + Z.of_nat (List.length (Observe.versionsEmitted (snd final))).
Proof.
  induction ops as [| op rest IH]; intros p log v0 Hlog Hver; [now split |].
  cbn [fold_left].
  destruct (History.step (p, log) op) as [p' log'] eqn:Hstep.
  assert (Hp' : p' = fst (History.step (p, []) op)).
  { rewrite <- step_state with (log := log). now rewrite Hstep. }
  assert (Hlog' : log' = log ++ snd (History.step (p, []) op)).
  { rewrite <- step_log. now rewrite Hstep. }
  destruct (step_versions p op) as [n [Hemit Hcount]].
  apply IH.
  - rewrite Hlog', versionsEmitted_app, Hemit, length_app, countUp_length.
    rewrite countUp_app, <- Hlog, <- Hver. reflexivity.
  - rewrite Hp', Hcount, Hlog', versionsEmitted_app, Hemit, length_app, countUp_length.
    lia.
Qed.

(** X7.  One counter for all subscribers: along any history of changes,
    subscriptions and teardowns of a Publisher, the publications carry the
    versions 2, 3, 4, ... without gap or repetition in emission order, and
    the counter always equals 1 plus the number of publications made. *)
Theorem publications_numbered_consecutively (src : Source.SyncSubscribable T)
        (ops : list (History.Op T)) :
  let final := History.run ops (Publisher.createMapArrayRemoteSubscribable src) in
  let n := List.length (Observe.versionsEmitted (snd final)) in
  Observe.versionsEmitted (snd final) = Observe.countUp 1 n
  /\ Publisher.version (fst final) = 1 + Z.of_nat n.
Proof.
  cbn zeta. unfold History.run. apply run_versions; reflexivity.
Qed.

End CounterFacts.

(** ** What one subscriber sees *)

Section SubscriberView.
Context {T : Type}.

Lemma versionsDeliveredTo_app (s : SubscriberId) (a b : list (Event T)) :
  History.versionsDeliveredTo s (a ++ b)
  = History.versionsDeliveredTo s a ++ History.versionsDeliveredTo s b.
Proof.
  induction a as [| e a IH]; simpl; [reflexivity |].
  destruct e; simpl; try assumption.
  destruct (Nat.eqb s0 s); simpl; now rewrite IH.
Qed.

Lemma sorted_app (l1 l2 : list Z) :
  StronglySorted Z.lt l1 -> StronglySorted Z.lt l2 ->
  (forall a b, In a l1 -> In b l2 -> a < b) ->
  StronglySorted Z.lt (l1 ++ l2).
Proof.
  induction l1 as [| x l1 IH]; intros H1 H2 Hlt; simpl; [assumption |].
  inversion H1 as [| y ys Hs Hall]; subst. constructor.
  - apply IH; [assumption | assumption |]. intros a b Ha Hb. apply Hlt; [now right | assumption].
  - apply Forall_app. split; [assumption |].
    apply Forall_forall. intros b Hb. apply Hlt; [now left | assumption].
Qed.

Lemma emissions_view (s : SubscriberId) (l : list (Handle * SubscriberId)) (d : Delta T) :
  forall v : Z,
    StronglySorted Z.lt (History.versionsDeliveredTo s (History.emissions l d v))
    /\ Forall (fun x => v < x <= v + Z.of_nat (List.length l))
              (History.versionsDeliveredTo s (History.emissions l d v)).
Proof.
  induction l as [| hs l IH]; intros v; simpl; [split; constructor |].
  destruct (IH (v + 1)) as [Hsorted Hbound].
  assert (Hweak : Forall (fun x => v < x <= v + Z.pos (Pos.of_succ_nat (List.length l)))
                         (History.versionsDeliveredTo s (History.emissions l d (v + 1)))).
  { eapply Forall_impl; [| exact Hbound]. simpl. intros x Hx. lia. }
  destruct (Nat.eqb (snd hs) s); [| now split].
  split.
  - constructor; [assumption |].
    eapply Forall_impl; [| exact Hbound]. simpl. intros x Hx. lia.
  - constructor; [lia | assumption].
Qed.

(** What one operation delivers to a subscriber lies strictly above the
    counter before it and at most at the counter after it. *)
Lemma step_view (s : SubscriberId) (p : Publisher.t T) (op : History.Op T) :
  let after := History.step (p, []) op in
  StronglySorted Z.lt (History.versionsDeliveredTo s (snd after))
  /\ Forall (fun x => Publisher.version p < x <= Publisher.version (fst after))
            (History.versionsDeliveredTo s (snd after))
  /\ Publisher.version p <= Publisher.version (fst after).
Proof.
  destruct op as [value | s' | h s']; cbn zeta; unfold History.step.
  - rewrite update_record. cbn [fst snd app Publisher.version].
    destruct (emissions_view s (Source.subscribers (Publisher.subscription p))
                (Publisher.computeDelta (Publisher.current p) value)
                (Publisher.version p)) as [Hs Hb].
    repeat split; [assumption | assumption | lia].
  - simpl. repeat split; try constructor. lia.
  - simpl. repeat split; try constructor. lia.
Qed.

Lemma run_view (s : SubscriberId) (ops : list (History.Op T)) :
  forall (p : Publisher.t T) (log : list (Event T)) (v0 : Z),
    v0 <= Publisher.version p ->
    StronglySorted Z.lt (History.versionsDeliveredTo s log) ->
    Forall (fun x => v0 < x <= Publisher.version p) (History.versionsDeliveredTo s log) ->
    let final := fold_left History.step ops (p, log) in
    StronglySorted Z.lt (History.versionsDeliveredTo s (snd final))
    /\ Forall (fun x => v0 < x <= Publisher.version (fst final))
              (History.versionsDeliveredTo s (snd final)).
Proof.
  induction ops as [| op rest IH]; intros p log v0 Hv0 Hsorted Hbound; [now split |].
  cbn [fold_left].
  destruct (History.step (p, log) op) as [p' log'] eqn:Hstep.
  assert (Hp' : p' = fst (History.step (p, []) op)).
  { rewrite <- step_state with (log := log). now rewrite Hstep. }
  assert (Hlog' : log' = log ++ snd (History.step (p, []) op)).
  { rewrite <- step_log. now rewrite Hstep. }
  destruct (step_view s p op) as [Hs [Hb Hmono]].
  rewrite <- Hp' in Hb, Hmono.
  apply IH.
  - lia.
  - rewrite Hlog', versionsDeliveredTo_app. apply sorted_app; [assumption | assumption |].
    intros a b Ha Hb'.
    rewrite Forall_forall in Hbound, Hb.
    specialize (Hbound a Ha). specialize (Hb b Hb'). lia.
  - rewrite Hlog', versionsDeliveredTo_app. apply Forall_app. split.
    + eapply Forall_impl; [| exact Hbound]. simpl. intros x Hx. lia.
    + eapply Forall_impl; [| exact Hb]. simpl. intros x Hx. lia.
Qed.

(** X8.  Whatever the history and however many subscribers there are, the
    versions handed to any one subscriber are strictly increasing, all
    above the starting version 1 and none above the Publisher's counter. *)
Theorem delivered_versions_increase (src : Source.SyncSubscribable T)
        (ops : list (History.Op T)) (s : SubscriberId) :
  let final := History.run ops (Publisher.createMapArrayRemoteSubscribable src) in
  StronglySorted Z.lt (History.versionsDeliveredTo s (snd final))
  /\ Forall (fun v => 1 < v <= Publisher.version (fst final))
            (History.versionsDeliveredTo s (snd final)).
Proof.
  cbn zeta. unfold History.run. apply run_view.
  - simpl. lia.
  - constructor.
  - constructor.
Qed.

End SubscriberView.

(** ** Snapshots: [initial], [getCurrent] and the seed of a Reconciler *)

Section SnapshotFacts.
Context {T : Type}.

Lemma step_live (p : Publisher.t T) (log : list (Event T)) (op : History.Op T) :
  Source.current (Publisher.subscription (fst (History.step (p, log) op)))
  = match op with
    | History.Change value => value
    | _ => Source.current (Publisher.subscription p)
    end.
Proof.
  destruct op as [value | s | h s]; unfold History.step.
  - now rewrite update_record.
  - reflexivity.
  - reflexivity.
Qed.

Lemma run_live (ops : list (History.Op T)) :
  forall pl : Publisher.t T * list (Event T),
    Source.current (Publisher.subscription (fst (fold_left History.step ops pl)))
    = Observe.lastChange ops (Source.current (Publisher.subscription (fst pl))).
Proof.
  induction ops as [| op rest IH]; intros [p log]; [reflexivity |].
  cbn [fold_left]. rewrite IH, step_live. now destruct op.
Qed.

(** X9.  After any history, [initial] still is the collection the
    Publisher was created over, while [getCurrent] answers with the value
    of the last change; a Reconciler made at that point starts from the
    latter and from the Publisher's counter, listening, without
    subscribers. *)
Theorem reconciler_seeded_from_live (v0 : MapArray T) (ops : list (History.Op T))
        (self : SubscriberId) :
  let p := fst (History.run ops (Publisher.createMapArrayRemoteSubscribable
                                   (Source.createSyncSubscribable v0))) in
  let r := snd (fst (fst (Reconciler.makeStatefulListSubscribable self p))) in
  Publisher.initial p = v0
  /\ fst (Publisher.getCurrent p) = Observe.lastChange ops v0
  /\ Reconciler.current r = Observe.lastChange ops v0
  /\ Reconciler.version r = Publisher.version p
  /\ Reconciler.listening r = true
  /\ Reconciler.subscribers r = [].
Proof.
  cbn zeta. unfold History.run.
  set (start := (Publisher.createMapArrayRemoteSubscribable
                   (Source.createSyncSubscribable v0), @nil (Event T))).
  destruct (run_baseline ops start) as [_ Hinit].
  pose proof (run_live ops start) as Hlive.
  repeat split; assumption.
Qed.

End SnapshotFacts.

(** ** Subscriptions on the Publisher *)

Section SubscriptionFacts.
Context {T : Type}.

Lemma step_fresh (p : Publisher.t T) (log : list (Event T)) (op : History.Op T) :
  Observe.handlesFresh (Publisher.subscription p) ->
  Observe.handlesFresh (Publisher.subscription (fst (History.step (p, log) op))).
Proof.
  unfold Observe.handlesFresh. intros Hfresh.
  destruct op as [value | s | h s]; unfold History.step.
  - rewrite update_record. exact Hfresh.
  - simpl. apply Forall_app. split.
    + eapply Forall_impl; [| exact Hfresh]. simpl. intros a Ha. lia.
    + repeat constructor.
  - simpl. apply Forall_forall. intros hs Hin. apply filter_In in Hin.
    rewrite Forall_forall in Hfresh. now apply Hfresh.
Qed.

Lemma run_fresh (ops : list (History.Op T)) :
  forall pl : Publisher.t T * list (Event T),
    Observe.handlesFresh (Publisher.subscription (fst pl)) ->
    Observe.handlesFresh (Publisher.subscription (fst (fold_left History.step ops pl))).
Proof.
  induction ops as [| op rest IH]; intros [p log] Hfresh; [assumption |].
  cbn [fold_left]. apply IH. now apply step_fresh.
Qed.

Lemma subscribe_teardown_listeners (s : SubscriberId) (p : Publisher.t T) :
  Observe.handlesFresh (Publisher.subscription p) ->
  Source.subscribers
    (Publisher.subscription
       (fst (Publisher.teardown (fst (snd (fst (Publisher.subscribe s p)))) s
                                (fst (fst (Publisher.subscribe s p))))))
  = Source.subscribers (Publisher.subscription p).
Proof.
  unfold Observe.handlesFresh. intros Hfresh. simpl.
  rewrite filter_app. simpl. rewrite Nat.eqb_refl. simpl. rewrite app_nil_r.
  apply filter_all. intros hs Hin. rewrite Forall_forall in Hfresh.
  apply negb_true_iff, Nat.eqb_neq. specialize (Hfresh hs Hin). lia.
Qed.

(** X10.  Subscribing and tearing down again leaves no trace on the
    Publisher reached by any history: the source has the listeners it had
    before, and the next change is published to the same subscribers, with
    the same deltas and versions, as if the subscription had never been. *)
Theorem subscribe_teardown_restores (v0 : MapArray T) (ops : list (History.Op T))
        (s : SubscriberId) (value : MapArray T) :
  let p := fst (History.run ops (Publisher.createMapArrayRemoteSubscribable
                                   (Source.createSyncSubscribable v0))) in
  let subscribed := Publisher.subscribe s p in
  let p2 := fst (Publisher.teardown (fst (snd (fst subscribed))) s (fst (fst subscribed))) in
  Source.subscribers (Publisher.subscription p2)
  = Source.subscribers (Publisher.subscription p)
  /\ snd (Publisher.traceUpdate value p2) = snd (Publisher.traceUpdate value p)
  /\ Publisher.version (fst (Publisher.traceUpdate value p2))
     = Publisher.version (fst (Publisher.traceUpdate value p)).
Proof.
  cbn zeta.
  set (p := fst (History.run ops (Publisher.createMapArrayRemoteSubscribable
                                    (Source.createSyncSubscribable v0)))).
  assert (Hfresh : Observe.handlesFresh (Publisher.subscription p)).
  { unfold p, History.run. apply run_fresh. constructor. }
  pose proof (subscribe_teardown_listeners s p Hfresh) as Hsubs.
  split; [exact Hsubs |].
  unfold Publisher.traceUpdate. rewrite !update_record. cbn [fst snd].
  rewrite Hsubs. split; reflexivity.
Qed.

Lemma unsubscribe_twice (h : Handle) (src : Source.SyncSubscribable T) :
  Source.unsubscribe h (Source.unsubscribe h src) = Source.unsubscribe h src.
Proof.
  unfold Source.unsubscribe. cbn [Source.current Source.subscribers Source.allocated].
  f_equal. apply filter_twice.
Qed.

(** X11.  A teardown removes the one listener closure it was created for
    and keeps every other listener of the source; the counter, [initial]
    and the live collection are untouched.  Calling it again changes
    nothing more in the Publisher, but releases the callback once more. *)
Theorem teardown_removes_only_its_listener (h : Handle) (s : SubscriberId)
        (p : Publisher.t T) :
  let p1 := fst (Publisher.teardown h s p) in
  (forall h' s', In (h', s') (Source.subscribers (Publisher.subscription p1))
                 <-> In (h', s') (Source.subscribers (Publisher.subscription p)) /\ h' <> h)
  /\ Publisher.getCurrent p1 = Publisher.getCurrent p
  /\ Publisher.initial p1 = Publisher.initial p
  /\ fst (Publisher.teardown h s p1) = p1
  /\ snd (Publisher.teardown h s p1) = [SourceUnsubscribe h; Release (Callback s)].
Proof.
  cbn zeta. split.
  - intros h' s'. simpl. rewrite filter_In. simpl.
    rewrite negb_true_iff, Nat.eqb_neq. reflexivity.
  - repeat split. simpl. now rewrite unsubscribe_twice.
Qed.

End SubscriptionFacts.

(** ** The Reconciler's listener: other payloads and arguments *)

Section PayloadFacts.
Context {T : Type}.

(** X12.  A full collection as payload replaces [current] wholesale in a
    listening Reconciler, whether or not the version was the expected one
    and whether or not a fetch took place; every subscriber is called with
    exactly that collection. *)
Theorem collection_payload_replaces (m : MapArray T) (incoming : Z)
        (subscription : option (Publisher.t T)) (r : Reconciler.t T) :
  Reconciler.listening r = true ->
  let after := Reconciler.listener (Reconciler.ACollection m) incoming subscription r in
  Reconciler.current (fst after) = m
  /\ snd after = map (fun s => Notify s m) (Reconciler.subscribers r)
  /\ Reconciler.subscribers (fst after) = Reconciler.subscribers r.
Proof.
  intros Hl. cbn zeta.
  destruct (Z.eq_dec incoming (Reconciler.version r + 1)) as [Heq | Hneq].
  - subst incoming. rewrite listener_expected, Hl. repeat split.
  - destruct subscription as [p |].
    + rewrite (listener_gap _ _ _ _ Hneq). cbn zeta. rewrite Hl. repeat split.
    + unfold Reconciler.listener, Reconciler.listenerEnter, Reconciler.listenerResume.
      cbn [Reconciler.listening Reconciler.current Reconciler.subscribers].
      rewrite Hl. repeat split.
Qed.

(** Called without its third argument the listener never fetches:
    whatever version comes in, it counts one up and treats the payload as
    if the version had been the expected one. *)
Theorem listener_without_subscription (value : Reconciler.Payload T) (incoming : Z)
        (r : Reconciler.t T) :
  Reconciler.listener value incoming None r
  = Reconciler.listener value (Reconciler.version r + 1) None r
  /\ Reconciler.version (fst (Reconciler.listener value incoming None r))
     = Reconciler.version r + 1.
Proof.
  split; [reflexivity |].
  unfold Reconciler.listener, Reconciler.listenerEnter, Reconciler.listenerResume.
  cbn [Reconciler.listening Reconciler.current Reconciler.subscribers].
  destruct (Reconciler.listening r); reflexivity.
Qed.

End PayloadFacts.

Lemma collection_payload_replaces_witness :
  let r : Reconciler.t nat := Reconciler.mk [("1"%string, 1%nat)] 1 true [4%nat] in
  let m : MapArray nat := [("2"%string, 2%nat)] in
  Reconciler.listening r = true
  /\ Reconciler.current (fst (Reconciler.listener (Reconciler.ACollection m) 9 None r)) = m
  /\ snd (Reconciler.listener (Reconciler.ACollection m) 9 None r) = [Notify 4%nat m].
Proof.
  intros r m.
  assert (Hl : Reconciler.listening r = true) by reflexivity.
  destruct (collection_payload_replaces m 9 None r Hl) as [Hcur [Hcalls _]].
  split; [exact Hl |]. split; [exact Hcur | exact Hcalls].
Defined.

(** ** Lifecycles of a Reconciler *)

Section LifecycleFacts.
Context {T : Type}.

Lemma listener_subscribers (value : Reconciler.Payload T) (incoming : Z)
      (subscription : option (Publisher.t T)) (r : Reconciler.t T) :
  Reconciler.subscribers (fst (Reconciler.listener value incoming subscription r))
  = Reconciler.subscribers r
  /\ Reconciler.listening (fst (Reconciler.listener value incoming subscription r))
     = Reconciler.listening r.
Proof.
  unfold Reconciler.listener, Reconciler.listenerEnter, Reconciler.listenerResume.
  destruct subscription as [p |];
    [destruct (negb (Z.eqb incoming (Reconciler.version
        (Reconciler.mk (Reconciler.current r) (Reconciler.version r + 1)
                       (Reconciler.listening r) (Reconciler.subscribers r))))) |];
    cbn [Reconciler.listening Reconciler.current Reconciler.subscribers];
    destruct (Reconciler.listening r) eqn:Hl; cbn [negb fst Reconciler.subscribers
      Reconciler.listening]; auto.
Qed.

Lemma listener_notified (value : Reconciler.Payload T) (incoming : Z)
      (subscription : option (Publisher.t T)) (r : Reconciler.t T) :
  Observe.notified (snd (Reconciler.listener value incoming subscription r))
  = if Reconciler.listening r then Reconciler.subscribers r else [].
Proof.
  assert (Hmap : forall (c : MapArray T) (l : list SubscriberId),
             Observe.notified (map (fun s => Notify s c) l) = l).
  { intros c l. induction l as [| s l IH]; simpl; [reflexivity | now rewrite IH]. }
  unfold Reconciler.listener, Reconciler.listenerEnter, Reconciler.listenerResume.
  destruct subscription as [p |];
    [destruct (negb (Z.eqb incoming (Reconciler.version
        (Reconciler.mk (Reconciler.current r) (Reconciler.version r + 1)
                       (Reconciler.listening r) (Reconciler.subscribers r))))) |];
    cbn [Reconciler.listening Reconciler.current Reconciler.subscribers];
    destruct (Reconciler.listening r) eqn:Hl; cbn [negb snd Reconciler.subscribers];
    rewrite ?Hmap; reflexivity.
Qed.

Lemma step_off (rl : Reconciler.t T * list (Event T)) (op : Remote.Op T) :
  Reconciler.listening (fst rl) = false ->
  Reconciler.listening (fst (Remote.step rl op)) = false
  /\ snd (Remote.step rl op) = snd rl.
Proof.
  destruct rl as [r log]. cbn [fst snd]. intros Hl.
  destruct op as [s | s | value v subscription |]; cbn [Remote.step].
  - now split.
  - now split.
  - destruct (listener_silent value v subscription r Hl) as [Hcalls Hoff].
    destruct (Reconciler.listener value v subscription r) as [r' evs].
    cbn [fst snd] in *. subst evs. now rewrite app_nil_r.
  - now split.
Qed.

Lemma run_off (ops : list (Remote.Op T)) :
  forall rl : Reconciler.t T * list (Event T),
    Reconciler.listening (fst rl) = false ->
    Reconciler.listening (fst (fold_left Remote.step ops rl)) = false
    /\ snd (fold_left Remote.step ops rl) = snd rl.
Proof.
  induction ops as [| op rest IH]; intros rl Hl; [now split |].
  cbn [fold_left]. destruct (step_off rl op Hl) as [Hoff Hlog].
  destruct (IH _ Hoff) as [Hoff' Hlog']. split; congruence.
Qed.

(** X13.  [destroy] is final for notifications: whatever is done to a
    Reconciler after it (subscribing, unsubscribing, deliveries with any
    payload and version, destroying again), no subscriber is ever called
    and [listening] never comes back on. *)
Theorem destroyed_never_notifies (r : Reconciler.t T) (ops : list (Remote.Op T)) :
  let final := Remote.run (Remote.Destroy :: ops) r in
  snd final = [] /\ Reconciler.listening (fst final) = false.
Proof.
  cbn zeta. unfold Remote.run. cbn [fold_left Remote.step].
  destruct (run_off ops (Reconciler.destroyEnter r, [])) as [Hoff Hlog]; [reflexivity |].
  split; assumption.
Qed.

Lemma step_NoDup (rl : Reconciler.t T * list (Event T)) (op : Remote.Op T) :
  NoDup (Reconciler.subscribers (fst rl)) ->
  NoDup (Reconciler.subscribers (fst (Remote.step rl op))).
Proof.
  destruct rl as [r log]. cbn [fst]. intros Hnd.
  destruct op as [s | s | value v subscription |]; cbn [Remote.step].
  - now apply setAdd_NoDup.
  - now apply setDelete_NoDup.
  - destruct (listener_subscribers value v subscription r) as [Hsubs _].
    destruct (Reconciler.listener value v subscription r) as [r' evs].
    cbn [fst] in *. now rewrite Hsubs.
  - constructor.
Qed.

Lemma run_NoDup (ops : list (Remote.Op T)) :
  forall rl : Reconciler.t T * list (Event T),
    NoDup (Reconciler.subscribers (fst rl)) ->
    NoDup (Reconciler.subscribers (fst (fold_left Remote.step ops rl))).
Proof.
  induction ops as [| op rest IH]; intros rl Hnd; [assumption |].
  cbn [fold_left]. apply IH. now apply step_NoDup.
Qed.

(** X14.  No subscriber is called twice for one delivery: in a
    Reconciler made by [makeStatefulListSubscribable] and taken through
    any lifecycle (also one that subscribes the same callback repeatedly),
    a listener invocation calls each registered callback at most once. *)
Theorem each_subscriber_notified_once (self : SubscriberId) (p : Publisher.t T)
        (ops : list (Remote.Op T)) (value : Reconciler.Payload T) (incoming : Z)
        (subscription : option (Publisher.t T)) :
  let r0 := snd (fst (fst (Reconciler.makeStatefulListSubscribable self p))) in
  let r := fst (Remote.run ops r0) in
  NoDup (Observe.notified (snd (Reconciler.listener value incoming subscription r))).
Proof.
  cbn zeta. rewrite listener_notified.
  match goal with |- NoDup (if ?b then _ else _) => destruct b end; [| constructor].
  unfold Remote.run. apply run_NoDup. constructor.
Qed.

End LifecycleFacts.

(** ** Making and destroying a Reconciler *)

Section RetentionFacts.
Context {T : Type}.

(** X15.  Making a Reconciler over a Publisher reached by any history and
    destroying it again: the Publisher object is retained once and
    released once, the listener callback likewise, acquisitions are undone
    in reverse order, the source is left with the listeners it had, and the
    destroyed Reconciler keeps its last [current] but neither listens nor
    has subscribers. *)
Theorem make_destroy_balanced (v0 : MapArray T) (ops : list (History.Op T))
        (self : SubscriberId) :
  let p := fst (History.run ops (Publisher.createMapArrayRemoteSubscribable
                                   (Source.createSyncSubscribable v0))) in
  let made := Reconciler.makeStatefulListSubscribable self p in
  let p1 := fst (fst (fst made)) in
  let r := snd (fst (fst made)) in
  let h := snd (fst made) in
  let destroyed := Reconciler.destroy self h (p1, r) in
  snd made ++ snd destroyed
  = [Retain PublisherObject; Retain (Callback self); SourceSubscribe h;
     SourceUnsubscribe h; Release (Callback self); Release PublisherObject]
  /\ Source.subscribers (Publisher.subscription (fst (fst destroyed)))
     = Source.subscribers (Publisher.subscription p)
  /\ Publisher.getCurrent (fst (fst destroyed)) = Publisher.getCurrent p
  /\ Reconciler.current (snd (fst destroyed)) = Reconciler.current r
  /\ Reconciler.listening (snd (fst destroyed)) = false
  /\ Reconciler.subscribers (snd (fst destroyed)) = [].
Proof.
  cbn zeta.
  set (p := fst (History.run ops (Publisher.createMapArrayRemoteSubscribable
                                    (Source.createSyncSubscribable v0)))).
  assert (Hfresh : Observe.handlesFresh (Publisher.subscription p)).
  { unfold p, History.run. apply run_fresh. constructor. }
  split; [reflexivity |]. split; [| repeat split].
  exact (subscribe_teardown_listeners self p Hfresh).
Qed.

End RetentionFacts.

(** ** An attached pair over many updates *)

Section SessionFacts.
Context {T : Type}.


Lemma subscribe_attached (s : SubscriberId) (sys : Bridge.t T) :
  Session.attached sys -> Session.attached (Session.subscribe s sys).
Proof. intros [H1 [H2 H3]]. repeat split; assumption. Qed.

(** One host update of an attached pair. *)
Lemma attached_update (value : MapArray T) (sys : Bridge.t T) :
  Session.attached sys ->
  let sys' := Bridge.hostUpdate value sys in
  let replica := Reconciler.applyPayload
                   (Reconciler.ADelta
                      (Publisher.computeDelta (Publisher.current (Bridge.host sys)) value))
                   (Reconciler.current (Bridge.remote sys)) in
  Session.attached sys'
  /\ Bridge.live sys' = value
  /\ Publisher.current (Bridge.host sys') = Publisher.current (Bridge.host sys)
  /\ Publisher.version (Bridge.host sys') = Publisher.version (Bridge.host sys) + 1
  /\ Reconciler.current (Bridge.remote sys') = replica
  /\ Reconciler.subscribers (Bridge.remote sys') = Reconciler.subscribers (Bridge.remote sys)
  /\ Bridge.trace sys'
     = Bridge.trace sys
       ++ map (fun s => Notify s replica) (Reconciler.subscribers (Bridge.remote sys)).
Proof.
  destruct sys as [[src init cur ver] [rcur rver rlisten rsubs] link tr].
  destruct src as [live subs alloc].
  unfold Session.attached. cbn [Bridge.host Bridge.remote Bridge.link Bridge.trace
    Publisher.subscription Publisher.version Publisher.current Source.subscribers
    Reconciler.version Reconciler.listening Reconciler.current Reconciler.subscribers].
  intros [Hsubs [Hver Hlisten]]. subst subs rver rlisten.
  cbn zeta. unfold Bridge.hostUpdate, Publisher.update, Source.assign.
  cbn [Bridge.host Bridge.remote Bridge.link Bridge.trace Publisher.subscription
       Publisher.initial Publisher.current Publisher.version Source.assign
       Source.subscribers Source.current Source.allocated fold_left snd].
  unfold Publisher.listener.
  cbn [Publisher.subscription Publisher.initial Publisher.current Publisher.version].
  unfold Bridge.callbacks. cbn [Nat.eqb Bridge.self fst snd].
  change (Nat.eqb Bridge.self Bridge.self) with true. cbn iota.
  pose proof (listener_expected
                (Reconciler.ADelta (Publisher.computeDelta cur value))
                (Some (Publisher.mk (Source.mk value [(link, Bridge.self)] alloc)
                                    init cur (ver + 1)))
                (Reconciler.mk rcur ver true rsubs)) as Hexp.
  cbn [Reconciler.version Reconciler.listening Reconciler.current
       Reconciler.subscribers] in Hexp.
  rewrite Hexp. cbn [Bridge.host Bridge.remote Bridge.link Bridge.trace Bridge.live
    Publisher.subscription Publisher.version Publisher.current Source.subscribers
    Source.current Reconciler.version Reconciler.listening Reconciler.current
    Reconciler.subscribers].
  repeat split.
Qed.



(** X17.  Every host update of an attached pair calls each subscriber of
    the Reconciler exactly once, in subscription order, with the
    Reconciler's whole new [current], and nothing else is added to the
    trace. *)
Theorem update_notifies_with_full_collection (value : MapArray T) (sys : Bridge.t T) :
  Session.attached sys ->
  let sys' := Bridge.hostUpdate value sys in
  Bridge.trace sys'
  = Bridge.trace sys
    ++ map (fun s => Notify s (Reconciler.current (Bridge.remote sys')))
           (Reconciler.subscribers (Bridge.remote sys))
  /\ Session.attached sys'.
Proof.
  intros Hatt. destruct (attached_update value sys Hatt)
    as [Hatt' [_ [_ [_ [Hcur [_ Htrace]]]]]].
  cbn zeta in *. rewrite Hcur. split; assumption.
Qed.

End SessionFacts.

Lemma update_notifies_with_full_collection_witness :
  let first : Key * nat := ("1"%string, 1%nat) in
  let second : Key * nat := ("2"%string, 2%nat) in
  let sys := Session.subscribe 8%nat (Session.subscribe 5%nat (Bridge.connect [first])) in
  Session.attached sys
  /\ Bridge.trace (Bridge.hostUpdate [first; second] sys)
     = Bridge.trace sys ++ [Notify 5%nat [first; second]; Notify 8%nat [first; second]].
Proof.
  intros first second sys.
  assert (Hatt : Session.attached sys) by (repeat split).
  destruct (update_notifies_with_full_collection [first; second] sys Hatt) as [Htrace _].
  split; [exact Hatt | exact Htrace].
Defined.

Section InStepFacts.
Context {T : Type}.

(** X6.  Exact replication of one update.  Take a pair in step (the
    Reconciler listening, the Publisher's only subscriber, both versions
    equal) in which the Publisher's comparison baseline is the Reconciler's
    [current], a collection with unique keys.  When the host's update
    keeps some of these entries, in order, and appends entries under keys
    the collection does not have, the Reconciler's [current] afterwards is
    exactly the host's new array, order included. *)
Theorem in_step_update_exact (sys : Bridge.t T) (extra : MapArray T)
        (keep : Key * T -> bool) :
  Session.attached sys ->
  Publisher.current (Bridge.host sys) = Reconciler.current (Bridge.remote sys) ->
  NoDup (keys (Reconciler.current (Bridge.remote sys))) ->
  (forall k, In k (keys extra) -> ~ In k (keys (Reconciler.current (Bridge.remote sys)))) ->
  let next := filter keep (Reconciler.current (Bridge.remote sys)) ++ extra in
  Reconciler.current (Bridge.remote (Bridge.hostUpdate next sys)) = next
  /\ Bridge.live (Bridge.hostUpdate next sys) = next.
Proof.
  intros Hatt Hbase Hnd Hfresh. cbn zeta.
  destruct (attached_update
              (filter keep (Reconciler.current (Bridge.remote sys)) ++ extra) sys Hatt)
    as [_ [Hlive [_ [_ [Hcur _]]]]].
  cbn zeta in *. split; [| exact Hlive].
  rewrite Hcur, Hbase. now apply applied_delta_exact.
Qed.

(** X18.  One update of a pair in step (the Reconciler listening, the
    Publisher's only subscriber, both versions equal), whatever the replica
    held before: every entry of the host's new value under a key that the
    Publisher's comparison baseline does not have is in the Reconciler's
    [current] afterwards, and no key of that baseline which the new value
    lacks is left in it. *)
Theorem in_step_update_arrivals (value : MapArray T) (sys : Bridge.t T) :
  Session.attached sys ->
  let sys' := Bridge.hostUpdate value sys in
  (forall k v, In (k, v) value -> ~ In k (keys (Publisher.current (Bridge.host sys))) ->
               In (k, v) (Reconciler.current (Bridge.remote sys')))
  /\ (forall k, In k (keys (Publisher.current (Bridge.host sys))) -> ~ In k (keys value) ->
                ~ In k (keys (Reconciler.current (Bridge.remote sys')))).
Proof.
  intros Hatt. destruct (attached_update value sys Hatt) as [_ [_ [_ [_ [Hcur _]]]]].
  cbn zeta in *. rewrite Hcur. split.
  - intros k v Hin Hnew. apply applyPayload_delta_In. split.
    + right. apply computeDelta_added. tauto.
    + intros Hrem. apply computeDelta_removed in Hrem. tauto.
  - intros k Hold Hgone Hin. unfold keys in Hin. apply in_map_iff in Hin.
    destruct Hin as [[k' v] [Hk Hin]]. simpl in Hk. subst k'.
    apply applyPayload_delta_In in Hin. destruct Hin as [_ Hrem].
    apply Hrem. apply computeDelta_removed. tauto.
Qed.

End InStepFacts.

Lemma in_step_update_exact_witness :
  let first : Key * nat := ("1"%string, 1%nat) in
  let second : Key * nat := ("2"%string, 2%nat) in
  let third : Key * nat := ("3"%string, 3%nat) in
  let sys := Session.subscribe 5%nat (Bridge.connect [first; second]) in
  let keep := fun e : Key * nat => negb (String.eqb (fst e) "2"%string) in
  Session.attached sys
  /\ Publisher.current (Bridge.host sys) = Reconciler.current (Bridge.remote sys)
  /\ NoDup (keys (Reconciler.current (Bridge.remote sys)))
  /\ (forall k, In k (keys [third]) ->
                ~ In k (keys (Reconciler.current (Bridge.remote sys))))
  /\ Reconciler.current (Bridge.remote (Bridge.hostUpdate [first; third] sys))
     = [first; third].
Proof.
  intros first second third sys keep.
  assert (Hatt : Session.attached sys) by (repeat split).
  assert (Hbase : Publisher.current (Bridge.host sys)
                  = Reconciler.current (Bridge.remote sys)) by reflexivity.
  assert (Hnd : NoDup (keys (Reconciler.current (Bridge.remote sys)))).
  { simpl. repeat constructor; simpl; intuition discriminate. }
  assert (Hfresh : forall k, In k (keys [third]) ->
                             ~ In k (keys (Reconciler.current (Bridge.remote sys)))).
  { intros k [Hk | []]. subst k. simpl. intuition discriminate. }
  destruct (in_step_update_exact sys [third] keep Hatt Hbase Hnd Hfresh) as [Hexact _].
  split; [exact Hatt |]. split; [exact Hbase |]. split; [exact Hnd |].
  split; [exact Hfresh |]. exact Hexact.
Defined.

Lemma in_step_update_arrivals_witness :
  let first : Key * nat := ("1"%string, 1%nat) in
  let second : Key * nat := ("2"%string, 2%nat) in
  let sys := Bridge.connect [first] in
  Session.attached sys
  /\ In second (Reconciler.current (Bridge.remote (Bridge.hostUpdate [second] sys)))
  /\ ~ In "1"%string (keys (Reconciler.current (Bridge.remote (Bridge.hostUpdate [second] sys)))).
Proof.
  intros first second sys.
  assert (Hatt : Session.attached sys) by (repeat split).
  destruct (in_step_update_arrivals [second] sys Hatt) as [Hnew Hgone].
  split; [exact Hatt |]. split.
  - apply (Hnew "2"%string 2%nat).
    + left. reflexivity.
    + simpl. intuition discriminate.
  - apply (Hgone "1"%string).
    + left. reflexivity.
    + simpl. intuition discriminate.
Defined.
